(** * Composer dataset utilities and run-metadata reporting

    A shallow embedding of
    - [composer/datasets/utils.py]: [MultiTokenEOSCriteria],
      [add_vision_dataset_transform] and [pil_image_collate];
    - [tests/loggers/test_mosaicml_logger.py]: the [MockMAPI] registry and
      the arithmetic the tests perform on logged timestamps;
    together with the properties the specification states about them.

    Python lists that are updated by index are stdpp lists with
    [l !! i] and [<[i:=x]> l]; dictionaries keyed by strings are
    [gmap string _]; integers are [Z]. *)

From Stdlib Require Import ZArith String Ascii List Lia Bool.
From stdpp Require Import gmap strings list fin_maps pretty.

Local Open Scope string_scope.
Local Open Scope list_scope.
Local Open Scope nat_scope.

Set Warnings "-register-all".

(** ** Python helpers shared by the modules below *)

(** [needle in hay] on Python strings: substring test. *)
Fixpoint str_contains (needle hay : string) : bool :=
  String.prefix needle hay ||
  match hay with
  | EmptyString => false
  | String _ hay' => str_contains needle hay'
  end.

(** [row[-n:]] on a Python sequence: the last [n] elements, the whole
    sequence when it is shorter, and (as [-0] is [0]) the whole sequence
    when [n] is zero. *)
Definition slice_last {A : Type} (n : nat) (row : list A) : list A :=
  if (n =? 0)%nat then row else drop (length row - n) row.

(** * Definitions *)

(** ** MultiTokenEOSCriteria *)

Module Criteria.

(** The two methods of [transformers.PreTrainedTokenizer] the class calls. *)
Record Tokenizer := {
  encode : string -> list Z;
  decode : list Z -> string
}.

Definition batch_decode (tk : Tokenizer) (rows : list (list Z)) : list string :=
  map (decode tk) rows.

Record MultiTokenEOSCriteria := {
  done_tracker : list bool;
  stop_sequence : string;
  stop_sequence_ids : list Z;
  stop_sequence_id_len : nat;
  tokenizer : Tokenizer
}.

(** [__init__]. [[False] * batch_size] is the empty list for a
    non-positive [batch_size]. *)
Definition init (stop : string) (tk : Tokenizer) (batch_size : Z)
  : MultiTokenEOSCriteria :=
  {| done_tracker := replicate (Z.to_nat batch_size) false;
     stop_sequence := stop;
     stop_sequence_ids := encode tk stop;
     stop_sequence_id_len := length (encode tk stop) + 2;
     tokenizer := tk |}.

(** The [for i, done in enumerate(self.done_tracker)] loop of [__call__].
    The list iterator reads the live list at position [i]; [n] bounds the
    remaining iterations. A missing text at [i] is the branch
    [i >= len(lookback_tokens_batch)], which sets the flag and breaks. *)
Fixpoint call_loop (stop : string) (texts : list string)
    (n i : nat) (tracker : list bool) : list bool :=
  match n with
  | O => tracker
  | S n' =>
    match tracker !! i with
    | None => tracker
    | Some done =>
      match texts !! i with
      | None => <[i := true]> tracker
      | Some text =>
        if negb done
        then call_loop stop texts n' (S i) (<[i := str_contains stop text]> tracker)
        else call_loop stop texts n' (S i) tracker
      end
    end
  end.

Definition lookback_ids_batch (c : MultiTokenEOSCriteria)
    (input_ids : list (list Z)) : list (list Z) :=
  map (slice_last (stop_sequence_id_len c)) input_ids.

(** [__call__]: the updated object and the returned boolean
    [False not in self.done_tracker]. *)
Definition call (c : MultiTokenEOSCriteria) (input_ids : list (list Z))
  : MultiTokenEOSCriteria * bool :=
  let lookback_tokens_batch :=
    batch_decode (tokenizer c) (lookback_ids_batch c input_ids) in
  let tracker :=
    call_loop (stop_sequence c) lookback_tokens_batch
              (length (done_tracker c)) 0 (done_tracker c) in
  ({| done_tracker := tracker;
      stop_sequence := stop_sequence c;
      stop_sequence_ids := stop_sequence_ids c;
      stop_sequence_id_len := stop_sequence_id_len c;
      tokenizer := tokenizer c |},
   bool_decide (false ∉ tracker)).

(** A generation: the criterion is called once per step. *)
Definition run (c : MultiTokenEOSCriteria) (steps : list (list (list Z)))
  : MultiTokenEOSCriteria :=
  fold_left (fun c input_ids => fst (call c input_ids)) steps c.

(** A character-level tokenizer, used to evaluate the class on concrete
    batches. *)
Definition char_tokenizer : Tokenizer :=
  {| encode := fun s => map (fun a => Z.of_nat (nat_of_ascii a)) (list_ascii_of_string s);
     decode := fun ids => string_of_list_ascii (map (fun z => ascii_of_nat (Z.to_nat z)) ids) |}.

(** What one call leaves at index [j], read off the old tracker. *)
Definition flag_after (stop : string) (texts : list string)
    (tracker : list bool) (j : nat) : option bool :=
  match tracker !! j with
  | None => None
  | Some d =>
    Some match texts !! j with
         | Some text => d || str_contains stop text
         | None => d || (j =? length texts)%nat
         end
  end.

(** The fields set by [__init__] and never assigned again. *)
Definition same_setup (c c' : MultiTokenEOSCriteria) : Prop :=
  stop_sequence c' = stop_sequence c /\
  stop_sequence_ids c' = stop_sequence_ids c /\
  stop_sequence_id_len c' = stop_sequence_id_len c /\
  tokenizer c' = tokenizer c /\
  length (done_tracker c') = length (done_tracker c).

End Criteria.

(** ** add_vision_dataset_transform *)

Module Transforms.

(** A torchvision transform, as far as the function tells transforms
    apart: an instance of [transforms.ToTensor], an instance of
    [transforms.Compose] with its list of transforms, or any other
    callable. *)
Inductive Transform :=
| ToTensor
| Compose (transforms : list Transform)
| Callable (name : string).

(** The one attribute of [VisionDataset] the function reads and writes;
    [None] is Python's [None]. *)
Record VisionDataset := {
  transform : option Transform
}.

(** What the function emits: the deprecation warning, and the
    [log.warning] whose text is built from the new transform and from
    [dataset.transform] as it is on entry. *)
Inductive Event :=
| DeprecationWarning (msg : string)
| LogWarning (added : Transform) (dataset_transform : option Transform).

Definition is_ToTensor (t : Transform) : bool :=
  match t with ToTensor => true | _ => false end.

(** [for i, t in enumerate(ts): if isinstance(t, ToTensor):
    insertion_index = i; break]. *)
Fixpoint find_ToTensor (i : nat) (ts : list Transform) (insertion_index : nat) : nat :=
  match ts with
  | [] => insertion_index
  | t :: ts' =>
    if is_ToTensor t then i else find_ToTensor (S i) ts' insertion_index
  end.

(** [l.insert(index, x)] for a non-negative index: past the end it
    appends. *)
Definition list_insert_at {A : Type} (index : nat) (x : A) (l : list A) : list A :=
  take index l ++ x :: drop index l.

Definition add_vision_dataset_transform (dataset : VisionDataset)
    (new : Transform) (is_tensor_transform : bool)
  : VisionDataset * list Event :=
  let warned :=
    DeprecationWarning
      "add_vision_dataset_transform is deprecated and will be removed in v0.18" in
  let transform_added_logstring := LogWarning new (transform dataset) in
  match transform dataset with
  | None =>
    ({| transform := Some new |}, [warned; transform_added_logstring])
  | Some (Compose ts) =>
    let insertion_index := find_ToTensor 0 ts (length ts) in
    let insertion_index :=
      if is_tensor_transform then insertion_index + 1 else insertion_index in
    ({| transform := Some (Compose (list_insert_at insertion_index new ts)) |},
     [warned; transform_added_logstring])
  | Some t =>
    if is_ToTensor t && negb is_tensor_transform
    then ({| transform := Some (Compose [new; t]) |},
          [warned; transform_added_logstring])
    else ({| transform := Some (Compose [t; new]) |},
          [warned; transform_added_logstring])
  end.

(** The transforms a dataset applies, in order: those of a [Compose],
    the single transform otherwise, none for [None]. *)
Definition pipeline (t : option Transform) : list Transform :=
  match t with
  | None => []
  | Some (Compose ts) => ts
  | Some single => [single]
  end.

End Transforms.

(** ** pil_image_collate *)

Module Collate.

(** *** Arrays

    A numpy array or torch tensor: its shape and its elements in row-major
    order. [torch.from_numpy] shares the array, so one type serves both. *)
Record ndarray := {
  shape : list nat;
  data : list Z
}.

Abbreviation Tensor := ndarray.

Definition list_prod (dims : list nat) : nat := fold_right Nat.mul 1 dims.

Definition ndim (a : ndarray) : nat := length (shape a).

(** Element types with their wrap-around. *)
Definition to_uint8 (v : Z) : Z := (v mod 256)%Z.
Definition to_int64 (v : Z) : Z :=
  ((v + 2 ^ 63) mod 2 ^ 64 - 2 ^ 63)%Z.

Definition zeros (dims : list nat) : ndarray :=
  {| shape := dims; data := replicate (list_prod dims) 0%Z |}.

(** [np.expand_dims(a, axis=-1)]. *)
Definition expand_dims_last (a : ndarray) : ndarray :=
  {| shape := shape a ++ [1]; data := data a |}.

(** [np.rollaxis(a, 2)]: on a three-dimensional array the last axis
    comes first, [out[k, i, j] = a[i, j, k]]; an array of fewer dimensions
    has no axis 2. Arrays read from an image have at most three. *)
Definition rollaxis_2 (a : ndarray) : option ndarray :=
  match shape a with
  | [h; w; c] =>
    Some {| shape := [c; h; w];
            data := flat_map (fun k =>
                      map (fun p => nth (p * c + k) (data a) 0%Z) (seq 0 (h * w)))
                      (seq 0 c) |}
  | _ => None
  end.

(** [np.resize(a, new_shape)]: the flattened array repeated as often as
    needed and cut to the new size; zeros when either size is zero. *)
Definition np_resize (a : ndarray) (new_shape : list nat) : ndarray :=
  let flat := data a in
  let new_size := list_prod new_shape in
  if (length flat =? 0) || (new_size =? 0)
  then zeros new_shape
  else
    let repeats :=
      Z.to_nat (- (- Z.of_nat new_size / Z.of_nat (length flat)))%Z in
    {| shape := new_shape;
       data := take new_size (concat (replicate repeats flat)) |}.

(** [n] consecutive chunks of [sz] elements. *)
Fixpoint chunks {A : Type} (n sz : nat) (l : list A) : list (list A) :=
  match n with
  | O => []
  | S n' => take sz l :: chunks n' sz (drop sz l)
  end.

(** Broadcasting the elements [d] of an array of shape [xs] to the shape
    [ts] of the same rank: along each axis the sizes agree, or the source
    has size 1 and is repeated. *)
Fixpoint broadcast (xs ts : list nat) (d : list Z) : option (list Z) :=
  match xs, ts with
  | [], [] => Some d
  | dx :: xs', dt :: ts' =>
    if dx =? dt
    then @concat Z <$> mapM (broadcast xs' ts') (chunks dx (list_prod xs') d)
    else if dx =? 1
    then (fun r => concat (replicate dt r)) <$> broadcast xs' ts' d
    else None
  | _, _ => None
  end.

(** The operand of an in-place operation is broadcast to the shape of the
    destination, which admits no new leading axes. *)
Definition broadcast_to (x : ndarray) (target : list nat) : option (list Z) :=
  if length (shape x) <=? length target
  then broadcast (replicate (length target - length (shape x)) 1 ++ shape x)
                 target (data x)
  else None.

(** [out[i] += x] for an element type with wrap-around [wrap]; [None]
    when torch refuses the shapes. *)
Definition iadd_slot (wrap : Z -> Z) (out : ndarray) (i : nat) (x : ndarray)
  : option ndarray :=
  let slot_shape := tail (shape out) in
  let sz := list_prod slot_shape in
  xs ← broadcast_to x slot_shape;
  Some {| shape := shape out;
          data := take (i * sz) (data out)
                  ++ zip_with (fun a b => wrap (a + b)%Z)
                              (take sz (drop (i * sz) (data out))) xs
                  ++ drop (S i * sz) (data out) |}.

(** The plane of sample [i] and channel [c] in an NCHW tensor. *)
Definition channel (t : ndarray) (i c : nat) : list Z :=
  match shape t with
  | [_; n_channels; h; w] =>
    take (h * w) (drop ((i * n_channels + c) * (h * w)) (data t))
  | _ => []
  end.

(** *** Samples *)

(** A [PIL.Image.Image]: its [size] is [(width, height)], and [pixel y x b]
    is the value of band [b] at row [y] and column [x]. *)
Record Image := {
  width : nat;
  height : nat;
  bands : nat;
  pixel : nat -> nat -> nat -> Z
}.

(** The values of an image in the order numpy reads them, [(h, w)] for a
    single band and [(h, w, bands)] otherwise. *)
Definition image_values (img : Image) : list Z :=
  flat_map (fun y =>
    flat_map (fun x =>
      map (fun b => pixel img y x b) (seq 0 (bands img)))
      (seq 0 (width img)))
    (seq 0 (height img)).

Definition image_array (cast : Z -> Z) (img : Image) : ndarray :=
  {| shape := if bands img =? 1
              then [height img; width img]
              else [height img; width img; bands img];
     data := map cast (image_values img) |}.

(** A target is an image or an array (a class index is a
    zero-dimensional array). *)
Inductive Target :=
| TargetImage (img : Image)
| TargetArray (a : ndarray).

(** [np.array(target, dtype=np.int64)]. *)
Definition target_array (t : Target) : ndarray :=
  match t with
  | TargetImage img => image_array to_int64 img
  | TargetArray a => {| shape := shape a; data := map to_int64 (data a) |}
  end.

(** *** Exceptions *)

Inductive Exception :=
| IndexError
| AxisError
| AssertionError (msg : string)
| RuntimeError.

Inductive result (A : Type) :=
| Ok (a : A)
| Raise (e : Exception).

Arguments Ok {A} a.
Arguments Raise {A} e.

#[global] Instance result_ret : MRet result := fun A a => Ok a.
#[global] Instance result_bind : MBind result := fun A B f m =>
  match m with
  | Ok a => f a
  | Raise e => Raise e
  end.

Definition assert (b : bool) (msg : string) : result unit :=
  if b then Ok tt else Raise (AssertionError msg).

Definition or_raise {A : Type} (e : Exception) (o : option A) : result A :=
  match o with
  | Some a => Ok a
  | None => Raise e
  end.

(** *** The function *)

(** The shape of the target tensor, fixed by the first target. *)
Definition target_dims (targets : list Target) : list nat :=
  match targets with
  | TargetImage t0 :: _ => [length targets; height t0; width t0]
  | _ => [length targets]
  end.

(** Lines 106-113: the array of one image, channels first, a single
    channel resized to three. *)
Definition image_channels_first (h w : nat) (img : Image) : result ndarray :=
  let nump_array := image_array to_uint8 img in
  let nump_array :=
    if ndim nump_array <? 3 then expand_dims_last nump_array else nump_array in
  nump_array ← or_raise AxisError (rollaxis_2 nump_array);
  if negb (hd 0 (shape nump_array) =? 3)
  then
    _ ← assert (hd 0 (shape nump_array) =? 1) "unexpected shape";
    Ok (np_resize nump_array [3; h; w])
  else Ok nump_array.

(** The loop [for i, img in enumerate(imgs)], which also reads
    [targets[i]]. *)
Fixpoint collate_loop (h w : nat) (i : nat) (samples : list (Image * Target))
    (image_tensor target_tensor : Tensor) : result (Tensor * Tensor) :=
  match samples with
  | [] => Ok (image_tensor, target_tensor)
  | (img, target) :: samples' =>
    nump_array ← image_channels_first h w img;
    _ ← assert (bool_decide (tail (shape image_tensor) = shape nump_array))
               "shape mismatch";
    image_tensor ← or_raise RuntimeError
                     (iadd_slot to_uint8 image_tensor i nump_array);
    target_tensor ← or_raise RuntimeError
                      (iadd_slot to_int64 target_tensor i (target_array target));
    collate_loop h w (S i) samples' image_tensor target_tensor
  end.

(** [pil_image_collate] at its default [memory_format]
    ([torch.contiguous_format]), which leaves shapes and values as they
    are. The deprecation warning it emits first does not alter the
    result. *)
Definition pil_image_collate (batch : list (Image * Target))
  : result (Tensor * Tensor) :=
  let imgs := map fst batch in
  match imgs with
  | [] => Raise IndexError
  | img0 :: _ =>
    let w := width img0 in
    let h := height img0 in
    let image_tensor := zeros [length imgs; 3; h; w] in
    let targets := map snd batch in
    let target_tensor := zeros (target_dims targets) in
    collate_loop h w 0 batch image_tensor target_tensor
  end.

(** *** Conditions on a batch *)

(** Every image has one band and is [h] high and [w] wide. *)
Definition single_channel (h w : nat) (s : Image * Target) : bool :=
  (bands (fst s) =? 1) && (height (fst s) =? h) && (width (fst s) =? w).

Definition single_channel_batch (h w : nat) (batch : list (Image * Target)) : bool :=
  forallb (single_channel h w) batch.

(** Every target can be added into its slot of the target tensor: the
    targets are all class indices, or grids of the size of the first. *)
Definition targets_fit (batch : list (Image * Target)) : bool :=
  let slot := tail (target_dims (map snd batch)) in
  forallb (fun s => bool_decide (is_Some (broadcast_to (target_array (snd s)) slot)))
          batch.

(** The three planes a single-channel image contributes. *)
Definition planes (img : Image) : list Z :=
  let D := data (image_array to_uint8 img) in D ++ D ++ D.

(** An image of one band with the given rows. *)
Definition gray_image (rows : list (list Z)) : Image :=
  {| width := length (hd [] rows);
     height := length rows;
     bands := 1;
     pixel := fun y x _ => nth x (nth y rows []) 0%Z |}.

(** An image of three bands, each pixel having the same value in all. *)
Definition rgb_image (rows : list (list Z)) : Image :=
  {| width := length (hd [] rows);
     height := length rows;
     bands := 3;
     pixel := fun y x _ => nth x (nth y rows []) 0%Z |}.

Definition class_index (k : Z) : Target :=
  TargetArray {| shape := []; data := [k] |}.

(** An image the loop accepts next to a first image of height [h] and
    width [w]: one band, or three bands and that size. *)
Definition image_ok (h w : nat) (img : Image) : bool :=
  (bands img =? 1) || ((bands img =? 3) && (height img =? h) && (width img =? w)).

(** The target can be added into a slot of the given shape. *)
Definition target_fits (slot : list nat) (t : Target) : bool :=
  bool_decide (is_Some (broadcast_to (target_array t) slot)).

(** [t[i, c, y, x]] of an NCHW tensor. *)
Definition tensor_at (t : ndarray) (i c y x : nat) : Z :=
  match shape t with
  | [_; n_channels; h; w] =>
    nth (((i * n_channels + c) * h + y) * w + x) (data t) 0%Z
  | _ => 0%Z
  end.

(** The array of a three-band image after [np.rollaxis(a, 2)]. *)
Definition rolled (img : Image) : list Z :=
  flat_map (fun k =>
    map (fun p => nth (p * 3 + k) (data (image_array to_uint8 img)) 0%Z)
        (seq 0 (height img * width img)))
    (seq 0 3).

Definition is_uint8 (v : Z) : Prop := (0 <= v < 256)%Z.

(** [w, h = imgs[0].size] of a batch that has a first image. *)
Definition batch_height (batch : list (Image * Target)) : nat :=
  match batch with
  | [] => 0
  | (img0, _) :: _ => height img0
  end.

Definition batch_width (batch : list (Image * Target)) : nat :=
  match batch with
  | [] => 0
  | (img0, _) :: _ => width img0
  end.

(** A sample whose image is accepted and whose target fits. *)
Definition sample_ok (h w : nat) (slot : list nat) (s : Image * Target) : bool :=
  image_ok h w (fst s) && target_fits slot (snd s).

End Collate.

(** ** Run-metadata reporting *)

Module MosaicLogger.

(** A value logged as run metadata: the JSON-compatible kinds, and
    tensors, which are not. A float is carried by its bit pattern; nothing
    below looks into it. A mapping keeps its items in insertion order. *)
Inductive Value :=
| VStr (s : string)
| VInt (n : Z)
| VFloat (bits : Z)
| VBool (b : bool)
| VTensor (shape : list nat) (data : list Z)
| VDict (items : list (string * Value))
| VList (items : list Value).

Section ValueInduction.
Variable P : Value -> Prop.
Hypothesis HStr : forall s, P (VStr s).
Hypothesis HInt : forall n, P (VInt n).
Hypothesis HFloat : forall bits, P (VFloat bits).
Hypothesis HBool : forall b, P (VBool b).
Hypothesis HTensor : forall shape data, P (VTensor shape data).
Hypothesis HDict : forall items,
  Forall (fun kv => P (snd kv)) items -> P (VDict items).
Hypothesis HList : forall items, Forall P items -> P (VList items).

Fixpoint Value_nested_ind (v : Value) : P v :=
  match v with
  | VStr s => HStr s
  | VInt n => HInt n
  | VFloat bits => HFloat bits
  | VBool b => HBool b
  | VTensor shape data => HTensor shape data
  | VDict items =>
    HDict items
      ((fix go (l : list (string * Value)) : Forall (fun kv => P (snd kv)) l :=
          match l with
          | [] => @List.Forall_nil _ _
          | (k, x) :: l' => @List.Forall_cons _ (fun kv => P (snd kv)) (k, x) l' (Value_nested_ind x) (go l')
          end) items)
  | VList items =>
    HList items
      ((fix go (l : list Value) : Forall P l :=
          match l with
          | [] => @List.Forall_nil _ _
          | x :: l' => @List.Forall_cons _ P x l' (Value_nested_ind x) (go l')
          end) items)
  end.
End ValueInduction.

(** [str(tensor.shape)], as in ["torch.Size([3])"]. *)
Definition torch_size (shape : list nat) : string :=
  "torch.Size([" ++ String.concat ", " (map pretty shape) ++ "])".

(** Modelled from the spec: [format_data_to_json_serializable] of
    [composer/loggers/mosaicml_logger.py], which is not among the sources.
    Section 4.1: a tensor is replaced with a string that describes its
    shape, mappings and lists are kept with their values formatted, and
    every other leaf passes through. The text of the replacement is the one
    [test_format_data_to_json_serializable] expects. *)
Fixpoint format_data_to_json_serializable (v : Value) : Value :=
  match v with
  | VTensor shape _ => VStr ("Tensor of shape " ++ torch_size shape)
  | VDict items =>
    VDict (map (fun kv => let '(k, x) := kv in
                          (k, format_data_to_json_serializable x)) items)
  | VList items => VList (map format_data_to_json_serializable items)
  | leaf => leaf
  end.

(** What [json.dumps] accepts. *)
Fixpoint json_serializable (v : Value) : bool :=
  match v with
  | VTensor _ _ => false
  | VDict items => forallb (fun kv => let '(_, x) := kv in json_serializable x) items
  | VList items => forallb json_serializable items
  | _ => true
  end.

(** Modelled from the spec: the glob patterns of the ignore-list
    (section 3, "glob-style key patterns"): [*] stands for any run of
    characters, [?] for any one character, and every other character
    for itself. *)
Fixpoint glob_match (pattern key : string) : bool :=
  match pattern with
  | EmptyString => match key with EmptyString => true | _ => false end
  | String p pattern' =>
    if Ascii.eqb p "*"
    then (fix star (key : string) : bool :=
            glob_match pattern' key ||
            match key with
            | EmptyString => false
            | String _ key' => star key'
            end) key
    else match key with
         | EmptyString => false
         | String c key' =>
           (Ascii.eqb p "?" || Ascii.eqb p c) && glob_match pattern' key'
         end
  end.

Definition ignored (ignore_keys : list string) (key : string) : bool :=
  existsb (fun pattern => glob_match pattern key) ignore_keys.

(** Modelled from the spec: the metric filter of the logger (section 4.2),
    which keeps the items whose key no pattern of the ignore-list
    matches. *)
Definition metric_filter (ignore_keys : list string)
    (metadata : list (string * Value)) : list (string * Value) :=
  filter (fun kv => ignored ignore_keys (fst kv) = false) metadata.

(** *** The registry double of the tests *)

(** [MockMAPI]: run name to metadata of the run. *)
Record MockMAPI := {
  run_metadata : gmap string (gmap string Value)
}.

Definition MockMAPI_init : MockMAPI := {| run_metadata := ∅ |}.

Inductive TypeError := NotJSONSerializable.

(** [MockMAPI.update_run_metadata]: the entries are stored first, and
    [json.dumps] then raises on a value it cannot write. *)
Definition update_run_metadata (api : MockMAPI) (run_name : string)
    (new_metadata : list (string * Value)) : MockMAPI * option TypeError :=
  let runs :=
    match run_metadata api !! run_name with
    | None => <[run_name := ∅]> (run_metadata api)
    | Some _ => run_metadata api
    end in
  let stored :=
    fold_left (fun m kv => <[fst kv := snd kv]> m) new_metadata
              (default ∅ (runs !! run_name)) in
  ({| run_metadata := <[run_name := stored]> runs |},
   if bool_decide (map_Forall (fun _ v => json_serializable v = true) stored)
   then None else Some NotJSONSerializable).

(** *** The reporter *)

Record MosaicMLLogger := {
  ignore_keys : list string;
  run_name : string;
  global_rank : nat
}.

(** A call of the external [update_run_metadata(run_name, metadata)]. *)
Definition Call : Type := string * list (string * Value).

(** Modelled from the spec: one logging event of the reporter
    (sections 5 and 6). On global rank zero it makes one call with the
    filtered, JSON-safe mapping; on any other rank it makes none. *)
Definition log_metadata (logger : MosaicMLLogger)
    (metadata : list (string * Value)) : list Call :=
  if global_rank logger =? 0
  then [(run_name logger,
         map (fun kv => (fst kv, format_data_to_json_serializable (snd kv)))
             (metric_filter (ignore_keys logger) metadata))]
  else [].

(** The calls of a whole run, one logging event after the other. *)
Definition log_events (logger : MosaicMLLogger)
    (events : list (list (string * Value))) : list Call :=
  flat_map (log_metadata logger) events.

(** The registry after it has received the calls. *)
Definition receive (api : MockMAPI) (calls : list Call) : MockMAPI :=
  fold_left (fun api call => fst (update_run_metadata api (fst call) (snd call)))
            calls api.

(** *** Training progress *)

Inductive TimeUnit := TOKEN | BATCH | EPOCH.

(** The counters of a trainer timestamp the progress is read from. *)
Record Timestamp := {
  token : Z;
  batch : Z;
  batch_in_epoch : Z;
  epoch : Z
}.

Definition unit_name (u : TimeUnit) : string :=
  match u with TOKEN => "token" | BATCH => "batch" | EPOCH => "epoch" end.

Definition current (u : TimeUnit) (t : Timestamp) : Z :=
  match u with TOKEN => token t | BATCH => batch t | EPOCH => epoch t end.

(** The outcome of a Python floor division [a // b] on integers: the
    quotient rounded towards minus infinity, or the [ZeroDivisionError]
    that a zero divisor raises. *)
Inductive Quotient :=
| Quotient_value (q : Z)
| ZeroDivisionError.

Definition floordiv (a b : Z) : Quotient :=
  if (b =? 0)%Z then ZeroDivisionError else Quotient_value (a / b)%Z.

(** Modelled from the spec: the progress renderer of the logger
    (section 4.3). The progress string is ["[unit=current/total]"]; the
    sub-progress is present for the epoch unit only, and is the floor
    quotient [(batch_count - batch_in_epoch_count) / epoch_count], which
    has no value at an epoch count of zero. *)
Definition training_progress (u : TimeUnit) (total : Z) (t : Timestamp) : string :=
  "[" ++ unit_name u ++ "=" ++ pretty (current u t) ++ "/" ++ pretty total ++ "]".

Definition training_sub_progress (u : TimeUnit) (t : Timestamp) : option Quotient :=
  match u with
  | EPOCH => Some (floordiv (batch t - batch_in_epoch t) (epoch t))
  | _ => None
  end.

(** [test_epoch_training_progress_logged], lines 279-283:
    [math.ceil((batch - batch_in_epoch) // epoch)], the ceiling of an
    integer being that integer, and the two assertions on it, which are
    not reached when the division raises. *)
Definition batches_per_epoch (t : Timestamp) : Quotient :=
  floordiv (batch t - batch_in_epoch t) (epoch t).

Definition test_epoch_assertions (first_batch_ep2 : Timestamp) : option bool :=
  match batches_per_epoch first_batch_ep2 with
  | Quotient_value batches_per_epoch =>
    Some ((batch_in_epoch first_batch_ep2 <? batches_per_epoch)%Z
          && (batches_per_epoch <? batch first_batch_ep2)%Z)
  | ZeroDivisionError => None
  end.

(** The timestamp of a run that makes [n] batches in every epoch, after
    [e] whole epochs and [k] batches of the next. *)
Definition timestamp_at (n e k : Z) : Timestamp :=
  {| token := 0; batch := e * n + k; batch_in_epoch := k; epoch := e |}.

End MosaicLogger.

(** * Properties *)

(** ** Properties of MultiTokenEOSCriteria *)

Module CriteriaFacts.
Import Criteria.

Lemma call_loop_length stop texts n : forall i tracker,
  length (call_loop stop texts n i tracker) = length tracker.
Proof.
  induction n as [|n IH]; intros i tracker; simpl; [done|].
  destruct (tracker !! i) as [d|]; [|done].
  destruct (texts !! i) as [text|].
  - destruct d; simpl; rewrite IH; [done|]. by rewrite length_insert.
  - by rewrite length_insert.
Qed.

Lemma call_loop_lookup stop texts n : forall i tracker j,
  (i <= length texts)%nat -> (length tracker <= i + n)%nat ->
  call_loop stop texts n i tracker !! j =
    if (j <? i)%nat then tracker !! j else flag_after stop texts tracker j.
Proof.
  induction n as [|n IH]; intros i tracker j Hi Hn; simpl.
  - unfold flag_after. destruct (Nat.ltb_spec j i) as [Hj|Hj]; [done|].
    rewrite (lookup_ge_None_2 tracker j) by lia. done.
  - destruct (tracker !! i) as [d|] eqn:Hd.
    + assert (Hlt : (i < length tracker)%nat) by (by eapply lookup_lt_Some).
      destruct (texts !! i) as [text|] eqn:Ht.
      * assert (Hit : (i < length texts)%nat) by (by eapply lookup_lt_Some).
        assert (Hstep : forall tr', length tr' = length tracker ->
                  (forall k, k <> i -> tr' !! k = tracker !! k) ->
                  tr' !! i = Some (d || str_contains stop text) ->
                  call_loop stop texts n (S i) tr' !! j =
                  if (j <? i)%nat then tracker !! j
                  else flag_after stop texts tracker j).
        { intros tr' Hlen Hne Heq. rewrite IH by lia.
          destruct (Nat.ltb_spec j (S i)) as [Hj|Hj];
            destruct (Nat.ltb_spec j i) as [Hj'|Hj']; try lia.
          - apply Hne; lia.
          - assert (j = i) as -> by lia.
            unfold flag_after. by rewrite Heq, Hd, Ht.
          - unfold flag_after. rewrite Hne by lia. done. }
        destruct d; simpl.
        -- apply Hstep; [done|done|]. by rewrite Hd.
        -- apply Hstep.
           ++ by rewrite length_insert.
           ++ intros k Hk. by rewrite list_lookup_insert_ne.
           ++ by rewrite list_lookup_insert_eq.
      * assert (Hit : i = length texts).
        { apply lookup_ge_None_1 in Ht. lia. }
        unfold flag_after.
        destruct (Nat.ltb_spec j i) as [Hj|Hj].
        -- rewrite list_lookup_insert_ne by lia. done.
        -- destruct (decide (j = i)) as [->|Hne].
           ++ rewrite list_lookup_insert_eq by done. rewrite Hd, Ht.
              rewrite <- Hit, Nat.eqb_refl. by rewrite orb_true_r.
           ++ rewrite list_lookup_insert_ne by done.
              destruct (tracker !! j) as [dj|]; [|done].
              rewrite (lookup_ge_None_2 texts j) by lia.
              assert ((j =? length texts)%nat = false) as ->
                by (apply Nat.eqb_neq; lia).
              by rewrite orb_false_r.
    + apply lookup_ge_None_1 in Hd. unfold flag_after.
      destruct (Nat.ltb_spec j i) as [Hj|Hj]; [done|].
      rewrite (lookup_ge_None_2 tracker j) by lia. done.
Qed.

Lemma call_done_tracker_lookup c input_ids j :
  done_tracker (fst (call c input_ids)) !! j =
    flag_after (stop_sequence c)
      (batch_decode (tokenizer c) (lookback_ids_batch c input_ids))
      (done_tracker c) j.
Proof.
  unfold call; simpl. rewrite call_loop_lookup by lia. done.
Qed.

Lemma call_done_tracker_length c input_ids :
  length (done_tracker (fst (call c input_ids))) = length (done_tracker c).
Proof. unfold call; simpl. apply call_loop_length. Qed.

Lemma lookback_tokens_lookup c input_ids j :
  batch_decode (tokenizer c) (lookback_ids_batch c input_ids) !! j =
    (fun row => decode (tokenizer c) (slice_last (stop_sequence_id_len c) row))
      <$> input_ids !! j.
Proof.
  unfold batch_decode, lookback_ids_batch.
  rewrite !list_lookup_fmap. by destruct (input_ids !! j).
Qed.

Lemma lookback_tokens_length c input_ids :
  length (batch_decode (tokenizer c) (lookback_ids_batch c input_ids)) =
    length input_ids.
Proof. unfold batch_decode, lookback_ids_batch. by rewrite !length_map. Qed.

Lemma run_same_setup steps : forall c, same_setup c (run c steps).
Proof.
  induction steps as [|input_ids steps IH]; intros c.
  - by repeat split.
  - change (run c (input_ids :: steps)) with (run (fst (call c input_ids)) steps).
    destruct (IH (fst (call c input_ids))) as (H1 & H2 & H3 & H4 & H5).
    unfold same_setup. rewrite H1, H2, H3, H4, H5. repeat split.
    apply call_done_tracker_length.
Qed.

(** With a batch shorter than the tracker, the flags past the first
    missing index are the ones the call found. *)
Lemma call_partial_batch_tail c input_ids j :
  (length input_ids < j)%nat ->
  done_tracker (fst (call c input_ids)) !! j = done_tracker c !! j.
Proof.
  intros Hj. rewrite call_done_tracker_lookup. unfold flag_after.
  destruct (done_tracker c !! j) as [d|]; [|done].
  rewrite (lookup_ge_None_2 _ j) by (rewrite lookback_tokens_length; lia).
  rewrite lookback_tokens_length.
  assert ((j =? length input_ids)%nat = false) as -> by (apply Nat.eqb_neq; lia).
  by rewrite orb_false_r.
Qed.

(** On a fresh criterion, a batch that is at least two sequences short
    leaves [False] at every index past the first missing one, and the call
    cannot report completion. *)
Lemma call_partial_batch_fresh stop tk B input_ids j :
  (length input_ids < j < Z.to_nat B)%nat ->
  done_tracker (fst (call (init stop tk B) input_ids)) !! j = Some false /\
  snd (call (init stop tk B) input_ids) = false.
Proof.
  intros [Hlo Hhi].
  assert (done_tracker (fst (call (init stop tk B) input_ids)) !! j = Some false)
    as Hj.
  { rewrite call_partial_batch_tail by done. simpl.
    by apply lookup_replicate_2. }
  split; [done|].
  change (snd (call (init stop tk B) input_ids))
    with (bool_decide
            (false ∉ done_tracker (fst (call (init stop tk B) input_ids)))).
  apply bool_decide_eq_false. intros Hnot. apply Hnot.
  apply list_elem_of_lookup. eauto.
Qed.

(** C1 (code side). Constructed with batch size 3 and called on a last
    partial batch of one sequence, [__call__] sets the flag of index 1 and
    breaks out of the loop: index 2, which is out of range as well, keeps
    the flag [False], and the call does not report completion. *)
Theorem call_partial_batch_sets_first_index_only :
  done_tracker (fst (call (init "." char_tokenizer 3) [[97%Z]]))
    = [false; true; false]
  /\ snd (call (init "." char_tokenizer 3) [[97%Z]]) = false.
Proof. split; reflexivity. Qed.

Lemma slice_last_window {A : Type} (n : nat) (row : list A) :
  0 < n ->
  row = take (length row - n) row ++ slice_last n row /\
  length (slice_last n row) = n `min` length row.
Proof.
  intros Hn. unfold slice_last.
  assert ((n =? 0) = false) as -> by (apply Nat.eqb_neq; lia).
  split; [by rewrite take_drop|]. rewrite length_drop. lia.
Qed.

(** C4. On a call with a full batch, the text examined for sequence [i]
    is the decoding of its last [N] token ids, with [N] the number of
    token ids of the encoded stop sequence plus 2: the row is some older
    tokens followed by a window of [N] tokens (the whole row when it has
    fewer), and the window alone is decoded. A sequence whose flag is
    [False] gets the flag "the decoded text contains the stop string" (a
    flag that is [True] stays); and the call returns [True] exactly when
    every flag is [True] afterwards. *)
Theorem call_full_batch (stop : string) (tk : Tokenizer) (B : Z)
    (history : list (list (list Z))) (input_ids : list (list Z)) :
  let c := run (init stop tk B) history in
  let N := (length (encode tk stop) + 2)%nat in
  length input_ids = Z.to_nat B ->
  length (done_tracker c) = Z.to_nat B /\
  (forall (i : nat) (row : list Z) (d : bool),
      input_ids !! i = Some row -> done_tracker c !! i = Some d ->
      exists older window,
        row = older ++ window /\
        length window = N `min` length row /\
        done_tracker (fst (call c input_ids)) !! i =
          Some (if d then true
                else str_contains stop (decode tk window))) /\
  (snd (call c input_ids) = true <->
   forall i, (i < Z.to_nat B)%nat ->
             done_tracker (fst (call c input_ids)) !! i = Some true).
Proof.
  intros c N Hfull.
  destruct (run_same_setup history (init stop tk B)) as (Hs & _ & Hl & Ht & Hlen).
  fold c in Hs, Hl, Ht, Hlen. simpl in Hs, Hl, Ht, Hlen.
  rewrite length_replicate in Hlen.
  split; [done|]. split.
  - intros i row d Hrow Hd.
    destruct (slice_last_window N row) as [Hsplit Hwindow]; [lia|].
    exists (take (length row - N) row), (slice_last N row).
    split; [done|]. split; [done|].
    rewrite call_done_tracker_lookup. unfold flag_after.
    rewrite Hd, lookback_tokens_lookup, Hrow; simpl.
    rewrite Hs, Ht, Hl. fold N. by destruct d.
  - pose proof (call_done_tracker_length c input_ids) as Hlen'.
    rewrite Hlen in Hlen'.
    change (snd (call c input_ids))
      with (bool_decide (false ∉ done_tracker (fst (call c input_ids)))).
    rewrite bool_decide_eq_true.
    set (tr := done_tracker (fst (call c input_ids))) in *.
    split.
    + intros Hnot i Hi.
      destruct (lookup_lt_is_Some_2 tr i) as [b Hb]; [lia|].
      destruct b; [done|]. exfalso. apply Hnot.
      apply list_elem_of_lookup. eauto.
    + intros Hall Hin. apply list_elem_of_lookup in Hin as [i Hi].
      assert (i < Z.to_nat B)%nat as Hlt.
      { rewrite <- Hlen'. by eapply lookup_lt_Some. }
      specialize (Hall i Hlt). congruence.
Qed.

(** A full batch of two sequences of four tokens with the stop string
    "." and a window of three: in the first the stop string is the oldest
    token, outside the window, and the sequence is not marked; in the
    second it is the last token, and the sequence is marked. *)
Lemma call_full_batch_witness :
  length [[46%Z; 97%Z; 98%Z; 99%Z]; [97%Z; 98%Z; 99%Z; 46%Z]] = Z.to_nat 2 /\
  done_tracker (fst (call (run (init "." char_tokenizer 2) [])
                          [[46%Z; 97%Z; 98%Z; 99%Z]; [97%Z; 98%Z; 99%Z; 46%Z]]))
    !! 0%nat = Some false /\
  done_tracker (fst (call (run (init "." char_tokenizer 2) [])
                          [[46%Z; 97%Z; 98%Z; 99%Z]; [97%Z; 98%Z; 99%Z; 46%Z]]))
    !! 1%nat = Some true.
Proof.
  split; [reflexivity|].
  destruct (call_full_batch "." char_tokenizer 2 []
              [[46%Z; 97%Z; 98%Z; 99%Z]; [97%Z; 98%Z; 99%Z; 46%Z]] eq_refl)
    as (_ & H & _).
  assert (forall (row older window : list Z) (a b c0 d : Z),
            row = [a; b; c0; d] -> row = older ++ window ->
            length window = (length (encode char_tokenizer ".") + 2) `min` length row ->
            window = [b; c0; d]) as Hwindow.
  { intros row older window a b c0 d -> Hsplit Hlen. simpl in Hlen.
    destruct older as [|o [|o' older]].
    - simpl in Hsplit. subst window. simpl in Hlen. lia.
    - simpl in Hsplit. by injection Hsplit as _ <-.
    - apply (f_equal length) in Hsplit. rewrite length_app in Hsplit.
      simpl in Hsplit. lia. }
  split.
  - destruct (H 0%nat [46%Z; 97%Z; 98%Z; 99%Z] false eq_refl eq_refl)
      as (older & window & Hsplit & Hlen & Hflag).
    rewrite (Hwindow _ _ _ _ _ _ _ eq_refl Hsplit Hlen) in Hflag. exact Hflag.
  - destruct (H 1%nat [97%Z; 98%Z; 99%Z; 46%Z] false eq_refl eq_refl)
      as (older & window & Hsplit & Hlen & Hflag).
    rewrite (Hwindow _ _ _ _ _ _ _ eq_refl Hsplit Hlen) in Hflag. exact Hflag.
Defined.

(** C10. The done tracker is monotone: a flag that is [True] in some
    state of the criterion is [True] after any further sequence of
    [__call__] invocations, whatever the batches passed. *)
Theorem done_tracker_monotone c steps i :
  done_tracker c !! i = Some true ->
  done_tracker (run c steps) !! i = Some true.
Proof.
  revert c. induction steps as [|input_ids steps IH]; intros c Hi.
  - done.
  - change (run c (input_ids :: steps)) with (run (fst (call c input_ids)) steps).
    apply IH. rewrite call_done_tracker_lookup. unfold flag_after.
    rewrite Hi. f_equal. by destruct (batch_decode _ _ !! i).
Qed.

(** The first sequence of a batch of two finishes in the first step and
    is still finished after a step in which no text holds the stop
    string. *)
Lemma done_tracker_monotone_witness :
  done_tracker (fst (call (init "." char_tokenizer 2) [[46%Z]; [97%Z]])) !! 0%nat
    = Some true /\
  done_tracker (run (fst (call (init "." char_tokenizer 2) [[46%Z]; [97%Z]]))
                    [[[97%Z]; [97%Z]]]) !! 0%nat = Some true.
Proof.
  split; [reflexivity|].
  apply (done_tracker_monotone
           (fst (call (init "." char_tokenizer 2) [[46%Z]; [97%Z]]))
           [[[97%Z]; [97%Z]]] 0%nat).
  reflexivity.
Defined.

(** *** Further behaviour of the criterion *)

Lemma all_done_lookup (tr : list bool) :
  bool_decide (false ∉ tr) = true <-> forall j b, tr !! j = Some b -> b = true.
Proof.
  rewrite bool_decide_eq_true. split.
  - intros Hnot j b Hj. destruct b; [done|]. exfalso. apply Hnot.
    apply list_elem_of_lookup. eauto.
  - intros Hall Hin. apply list_elem_of_lookup in Hin as [j Hj].
    specialize (Hall j false Hj). done.
Qed.

Lemma call_result c input_ids :
  snd (call c input_ids)
  = bool_decide (false ∉ done_tracker (fst (call c input_ids))).
Proof. done. Qed.

Lemma flag_after_keeps_true stop texts tracker j :
  tracker !! j = Some true -> flag_after stop texts tracker j = Some true.
Proof.
  intros Hj. unfold flag_after. rewrite Hj. f_equal. by destruct (texts !! j).
Qed.

Lemma run_keeps_true steps : forall c j,
  done_tracker c !! j = Some true -> done_tracker (run c steps) !! j = Some true.
Proof.
  induction steps as [|input_ids steps IH]; intros c j Hj; [done|].
  change (run c (input_ids :: steps)) with (run (fst (call c input_ids)) steps).
  apply IH. rewrite call_done_tracker_lookup. by apply flag_after_keeps_true.
Qed.

Lemma run_tracker_length steps c :
  length (done_tracker (run c steps)) = length (done_tracker c).
Proof. by destruct (run_same_setup steps c) as (_ & _ & _ & _ & ?). Qed.

(** What a call does with a batch that is shorter than the tracker: the
    sequences present are checked as usual, the first missing index is
    marked done, and every index behind it is left as it was. *)
Theorem call_partial_batch_behaviour
    (c : MultiTokenEOSCriteria) (input_ids : list (list Z)) :
  length input_ids < length (done_tracker c) ->
  let after := done_tracker (fst (call c input_ids)) in
  let N := stop_sequence_id_len c in
  (forall j row d, input_ids !! j = Some row -> done_tracker c !! j = Some d ->
     after !! j = Some (d || str_contains (stop_sequence c)
                                (decode (tokenizer c) (slice_last N row)))) /\
  after !! length input_ids = Some true /\
  (forall j, length input_ids < j -> after !! j = done_tracker c !! j).
Proof.
  intros Hshort after N. subst after N. repeat split.
  - intros j row d Hrow Hd. rewrite call_done_tracker_lookup. unfold flag_after.
    by rewrite Hd, lookback_tokens_lookup, Hrow.
  - rewrite call_done_tracker_lookup. unfold flag_after.
    destruct (lookup_lt_is_Some_2 (done_tracker c) (length input_ids) Hshort)
      as [d ->].
    rewrite (lookup_ge_None_2 _ (length input_ids))
      by (by rewrite lookback_tokens_length).
    by rewrite lookback_tokens_length, Nat.eqb_refl, orb_true_r.
  - intros j Hj. rewrite call_done_tracker_lookup. unfold flag_after.
    destruct (done_tracker c !! j) as [d|]; [|done].
    rewrite (lookup_ge_None_2 _ j) by (rewrite lookback_tokens_length; lia).
    rewrite lookback_tokens_length.
    assert ((j =? length input_ids) = false) as -> by (apply Nat.eqb_neq; lia).
    by rewrite orb_false_r.
Qed.

(** A batch of one sequence for a criterion made for two: the missing
    index is marked done. *)
Lemma call_partial_batch_behaviour_witness :
  done_tracker (fst (call (init "." char_tokenizer 2) [[97%Z]])) !! 1
  = Some true.
Proof.
  destruct (call_partial_batch_behaviour (init "." char_tokenizer 2) [[97%Z]])
    as (_ & H & _); [simpl; lia|]. exact H.
Defined.

(** Rows beyond the size of the tracker are never looked at: a batch with
    more sequences than [batch_size] gives the same tracker and the same
    answer as its first [batch_size] rows. *)
Theorem call_ignores_extra_rows
    (c : MultiTokenEOSCriteria) (rows extra : list (list Z)) :
  length (done_tracker c) <= length rows ->
  call c (rows ++ extra) = call c rows.
Proof.
  intros Hlen.
  assert (done_tracker (fst (call c (rows ++ extra)))
          = done_tracker (fst (call c rows))) as Htr.
  { apply list_eq. intros j. rewrite !call_done_tracker_lookup.
    unfold flag_after. destruct (done_tracker c !! j) as [d|] eqn:Hd; [|done].
    apply lookup_lt_Some in Hd.
    rewrite !lookback_tokens_lookup. rewrite lookup_app_l by lia.
    destruct (lookup_lt_is_Some_2 rows j) as [row ->]; [lia|]. done. }
  unfold call in *. simpl in Htr. by rewrite Htr.
Qed.

(** A criterion for one sequence called on a batch of two. *)
Lemma call_ignores_extra_rows_witness :
  call (init "." char_tokenizer 1) ([[97%Z]] ++ [[46%Z]])
  = call (init "." char_tokenizer 1) [[97%Z]].
Proof.
  apply (call_ignores_extra_rows (init "." char_tokenizer 1) [[97%Z]] [[46%Z]]).
  simpl. lia.
Defined.

(** Once a call has answered [True], every later call answers [True],
    whatever batches are passed in between and then. *)
Theorem call_true_is_final
    (c : MultiTokenEOSCriteria) (input_ids : list (list Z))
    (steps : list (list (list Z))) (later : list (list Z)) :
  snd (call c input_ids) = true ->
  snd (call (run (fst (call c input_ids)) steps) later) = true.
Proof.
  rewrite !call_result, !all_done_lookup. intros Hall j b Hj.
  set (c1 := fst (call c input_ids)) in *.
  assert (j < length (done_tracker c1)) as Hlt.
  { apply lookup_lt_Some in Hj.
    by rewrite call_done_tracker_length, run_tracker_length in Hj. }
  destruct (lookup_lt_is_Some_2 _ _ Hlt) as [d Hd].
  assert (d = true) as -> by (by eapply Hall).
  rewrite call_done_tracker_lookup in Hj.
  rewrite (flag_after_keeps_true _ _ _ _ (run_keeps_true steps c1 j Hd)) in Hj.
  congruence.
Qed.

(** One sequence that ends in the stop string, then a step without it. *)
Lemma call_true_is_final_witness :
  snd (call (init "." char_tokenizer 1) [[46%Z]]) = true /\
  snd (call (run (fst (call (init "." char_tokenizer 1) [[46%Z]])) [[[97%Z]]])
            [[98%Z]]) = true.
Proof.
  split; [reflexivity|].
  apply (call_true_is_final (init "." char_tokenizer 1) [[46%Z]] [[[97%Z]]] [[98%Z]]).
  reflexivity.
Defined.

(** A criterion built with a batch size that is zero or negative has an
    empty tracker and answers [True] on every call. *)
Theorem call_without_sequences (stop : string) (tk : Tokenizer) (B : Z)
    (history : list (list (list Z))) (input_ids : list (list Z)) :
  (B <= 0)%Z ->
  done_tracker (run (init stop tk B) history) = [] /\
  snd (call (run (init stop tk B) history) input_ids) = true.
Proof.
  intros HB.
  assert (done_tracker (run (init stop tk B) history) = []) as Hnil.
  { apply length_zero_iff_nil. rewrite run_tracker_length. simpl.
    rewrite length_replicate. lia. }
  split; [done|].
  rewrite call_result, all_done_lookup. intros j b Hj.
  apply lookup_lt_Some in Hj.
  rewrite call_done_tracker_length, Hnil in Hj. simpl in Hj. lia.
Qed.

Lemma call_without_sequences_witness :
  snd (call (run (init "." char_tokenizer 0) []) [[97%Z]]) = true.
Proof.
  apply (call_without_sequences "." char_tokenizer 0 [] [[97%Z]]). lia.
Defined.

Lemma prefix_append (a b : string) :
  String.prefix a b = true <-> exists post, b = a +:+ post.
Proof.
  revert b. induction a as [|x a IH]; intros b.
  - split; [intros _; by exists b|intros _; by destruct b].
  - destruct b as [|y b]; simpl.
    + split; [done|]. by intros [post Hpost].
    + destruct (Ascii.ascii_dec x y) as [->|Hne].
      * rewrite IH. split; intros [post Hpost]; exists post.
        -- simpl. by rewrite Hpost.
        -- simpl in Hpost. by injection Hpost.
      * split; [done|]. intros [post Hpost]. simpl in Hpost.
        injection Hpost as Hy _. by subst.
Qed.

(** [str_contains] is the substring test of Python's [in]. *)
Lemma str_contains_append (needle hay : string) :
  str_contains needle hay = true <->
  exists pre post, hay = pre +:+ needle +:+ post.
Proof.
  induction hay as [|c hay IH]; cbn [str_contains]; rewrite orb_true_iff.
  - rewrite prefix_append. split.
    + intros [[post Hpost]|Hf]; [|done]. by exists "", post.
    + intros (pre & post & Hsplit). left. exists post.
      destruct pre; [done|discriminate].
  - rewrite prefix_append, IH. split.
    + intros [[post Hpost]|(pre & post & Hsplit)].
      * by exists "", post.
      * exists (String c pre), post. simpl. by rewrite Hsplit.
    + intros (pre & post & Hsplit). destruct pre as [|c' pre].
      * left. by exists post.
      * right. exists pre, post. simpl in Hsplit. by injection Hsplit.
Qed.

Lemma slice_last_app {A : Type} (n : nat) (older row : list A) :
  0 < n -> n <= length row ->
  slice_last n (older ++ row) = slice_last n row.
Proof.
  intros Hn Hrow. unfold slice_last.
  assert ((n =? 0) = false) as -> by (apply Nat.eqb_neq; lia).
  rewrite length_app.
  replace (length older + length row - n)
    with (length older + (length row - n)) by lia.
  by rewrite drop_app_add'.
Qed.

(** A sequence that is present and not yet done is marked done by a call
    exactly when the decoding of its last tokens reads
    [pre + stop_sequence + post] for some strings [pre] and [post]. *)
Theorem call_marks_done_iff_substring
    (c : MultiTokenEOSCriteria) (input_ids : list (list Z))
    (i : nat) (row : list Z) :
  input_ids !! i = Some row ->
  done_tracker c !! i = Some false ->
  done_tracker (fst (call c input_ids)) !! i = Some true <->
  exists pre post,
    decode (tokenizer c) (slice_last (stop_sequence_id_len c) row)
    = pre +:+ stop_sequence c +:+ post.
Proof.
  intros Hrow Hd. rewrite call_done_tracker_lookup. unfold flag_after.
  rewrite Hd, lookback_tokens_lookup, Hrow. simpl.
  rewrite <- str_contains_append. split; congruence.
Qed.

(** The row "a." holds the stop string "." after the text "a". *)
Lemma call_marks_done_iff_substring_witness :
  done_tracker (fst (call (init "." char_tokenizer 1) [[97%Z; 46%Z]])) !! 0
  = Some true.
Proof.
  apply (call_marks_done_iff_substring (init "." char_tokenizer 1)
           [[97%Z; 46%Z]] 0 [97%Z; 46%Z] eq_refl eq_refl).
  exists "a", "". reflexivity.
Defined.

(** With the empty string as stop sequence every text matches: a call
    with a batch that covers the tracker answers [True]. *)
Theorem call_empty_stop_sequence
    (c : MultiTokenEOSCriteria) (input_ids : list (list Z)) :
  stop_sequence c = "" ->
  length (done_tracker c) <= length input_ids ->
  snd (call c input_ids) = true.
Proof.
  intros Hstop Hlen. rewrite call_result, all_done_lookup. intros j b Hj.
  rewrite call_done_tracker_lookup in Hj. unfold flag_after in Hj.
  destruct (done_tracker c !! j) as [d|] eqn:Hd; [|done].
  apply lookup_lt_Some in Hd.
  rewrite lookback_tokens_lookup in Hj.
  destruct (lookup_lt_is_Some_2 input_ids j) as [row Hrow]; [lia|].
  rewrite Hrow, Hstop in Hj. simpl in Hj.
  assert (forall t, str_contains "" t = true) as Hany by (by intros []).
  rewrite Hany, orb_true_r in Hj. congruence.
Qed.

Lemma call_empty_stop_sequence_witness :
  snd (call (init "" char_tokenizer 2) [[97%Z]; [98%Z]]) = true.
Proof.
  apply (call_empty_stop_sequence (init "" char_tokenizer 2) [[97%Z]; [98%Z]]).
  - reflexivity.
  - simpl. lia.
Defined.

(** Tokens older than the lookback window are never examined: putting
    any tokens in front of rows that already fill the window changes
    neither the tracker nor the answer. *)
Theorem call_ignores_older_tokens (stop : string) (tk : Tokenizer) (B : Z)
    (history : list (list (list Z))) (older rows : list (list Z)) :
  Forall (fun row => length (encode tk stop) + 2 <= length row) rows ->
  length older = length rows ->
  call (run (init stop tk B) history) (zip_with app older rows)
  = call (run (init stop tk B) history) rows.
Proof.
  intros Hrows Hlen.
  destruct (run_same_setup history (init stop tk B)) as (_ & _ & Hl & _ & _).
  simpl in Hl. set (c := run (init stop tk B) history) in *.
  assert (lookback_ids_batch c (zip_with app older rows)
          = lookback_ids_batch c rows) as Hlook.
  { unfold lookback_ids_batch. rewrite Hl. clear Hl.
    revert older Hlen. induction Hrows as [|row rows Hrow _ IH];
      intros [|o older] Hlen; try done.
    simpl. rewrite slice_last_app by lia. f_equal. apply IH.
    simpl in Hlen. lia. }
  unfold call. by rewrite Hlook.
Qed.

(** The stop string "." takes one token, so the window holds three; a
    fourth, older token in front of the row makes no difference. *)
Lemma call_ignores_older_tokens_witness :
  call (run (init "." char_tokenizer 1) []) (zip_with app [[120%Z]] [[97%Z; 98%Z; 46%Z]])
  = call (run (init "." char_tokenizer 1) []) [[97%Z; 98%Z; 46%Z]].
Proof.
  apply (call_ignores_older_tokens "." char_tokenizer 1 [] [[120%Z]]
           [[97%Z; 98%Z; 46%Z]]).
  - repeat constructor.
  - reflexivity.
Defined.

End CriteriaFacts.

(** ** Properties of add_vision_dataset_transform *)

Module TransformsFacts.
Import Transforms.

Lemma is_ToTensor_true t : is_ToTensor t = true <-> t = ToTensor.
Proof. destruct t; simpl; split; congruence. Qed.

Lemma find_ToTensor_first pre post i d :
  ToTensor ∉ pre ->
  find_ToTensor i (pre ++ (ToTensor :: post)) d = i + length pre.
Proof.
  revert i. induction pre as [|t pre IH]; intros i Hpre; simpl.
  - lia.
  - apply not_elem_of_cons in Hpre as [Hne Hpre].
    destruct (is_ToTensor t) eqn:Ht.
    + apply is_ToTensor_true in Ht. congruence.
    + rewrite IH by done. lia.
Qed.

Lemma find_ToTensor_absent ts i d :
  ToTensor ∉ ts -> find_ToTensor i ts d = d.
Proof.
  revert i. induction ts as [|t ts IH]; intros i Hts; simpl; [done|].
  apply not_elem_of_cons in Hts as [Hne Hts].
  destruct (is_ToTensor t) eqn:Ht.
  - apply is_ToTensor_true in Ht. congruence.
  - by apply IH.
Qed.

Lemma split_first_ToTensor ts :
  ToTensor ∈ ts ->
  exists pre post, ts = (pre ++ (ToTensor :: post)) /\ ToTensor ∉ pre.
Proof.
  induction ts as [|t ts IH]; intros Hin.
  - by apply elem_of_nil in Hin.
  - destruct (is_ToTensor t) eqn:Ht.
    + apply is_ToTensor_true in Ht as ->.
      exists [], ts. split; [done|]. apply not_elem_of_nil.
    + apply elem_of_cons in Hin as [<-|Hin]; [done|].
      destruct (IH Hin) as (pre & post & -> & Hpre).
      exists (t :: pre), post. split; [done|].
      apply not_elem_of_cons. split; [|done].
      intros <-. done.
Qed.

Lemma list_insert_at_app {A : Type} (x : A) (pre post : list A) :
  list_insert_at (length pre) x (pre ++ post) = pre ++ x :: post.
Proof.
  unfold list_insert_at. by rewrite take_app_length, drop_app_length.
Qed.

Lemma list_insert_at_past_end {A : Type} (x : A) (l : list A) n :
  length l <= n -> list_insert_at n x l = l ++ [x].
Proof.
  intros Hn. unfold list_insert_at.
  by rewrite take_ge, drop_ge by lia.
Qed.

(** C3. Where [add_vision_dataset_transform] puts the new transform [t]:
    an empty pipeline becomes [t]; in a composed pipeline that contains a
    [ToTensor], [t] goes immediately before the (first) [ToTensor] when
    [is_tensor_transform] is false and immediately after it when it is
    true; a pipeline that is a single [ToTensor] becomes the pair of the
    two in that same order; in every other case [t] is appended after what
    is there (at the end of a composed pipeline without [ToTensor], behind
    a single other transform). *)
Theorem add_vision_dataset_transform_placement
    (dataset : VisionDataset) (t : Transform) (is_tensor_transform : bool) :
  let after :=
    transform (fst (add_vision_dataset_transform dataset t is_tensor_transform)) in
  (transform dataset = None -> after = Some t) /\
  (forall ts, transform dataset = Some (Compose ts) -> ToTensor ∈ ts ->
     exists pre post,
       ts = (pre ++ (ToTensor :: post)) /\ (ToTensor ∉ pre) /\
       after = Some (Compose (if is_tensor_transform
                              then pre ++ ToTensor :: t :: post
                              else pre ++ t :: ToTensor :: post))) /\
  (transform dataset = Some ToTensor ->
     after = Some (Compose (if is_tensor_transform
                            then [ToTensor; t] else [t; ToTensor]))) /\
  (forall ts, transform dataset = Some (Compose ts) -> ToTensor ∉ ts ->
     after = Some (Compose (ts ++ [t]))) /\
  (forall name, transform dataset = Some (Callable name) ->
     after = Some (Compose [Callable name; t])).
Proof.
  intros after. subst after. unfold add_vision_dataset_transform.
  repeat split.
  - intros ->. done.
  - intros ts -> Hin.
    apply split_first_ToTensor in Hin as (pre & post & -> & Hpre).
    exists pre, post. split; [done|]. split; [done|]. simpl.
    rewrite find_ToTensor_first by done. simpl.
    destruct is_tensor_transform.
    + replace (length pre + 1) with (length (pre ++ [ToTensor]))
        by (rewrite length_app; simpl; lia).
      replace (pre ++ (ToTensor :: post)) with ((pre ++ [ToTensor]) ++ post)
        by (by rewrite <- app_assoc).
      rewrite list_insert_at_app. by rewrite <- app_assoc.
    + by rewrite list_insert_at_app.
  - intros ->. simpl. by destruct is_tensor_transform.
  - intros ts -> Hnot. simpl.
    rewrite find_ToTensor_absent by done.
    rewrite list_insert_at_past_end; [done|].
    destruct is_tensor_transform; lia.
  - intros name ->. done.
Qed.

(** A crop followed by the tensor conversion receives a flip that works
    on images: it lands between the two. *)
Lemma add_vision_dataset_transform_placement_witness :
  exists pre post,
    [Callable "RandomCrop"; ToTensor] = (pre ++ (ToTensor :: post)) /\
    (ToTensor ∉ pre) /\
    transform (fst (add_vision_dataset_transform
                      {| transform := Some (Compose [Callable "RandomCrop"; ToTensor]) |}
                      (Callable "RandomHorizontalFlip") false))
      = Some (Compose (pre ++ Callable "RandomHorizontalFlip" :: ToTensor :: post)).
Proof.
  destruct (add_vision_dataset_transform_placement
              {| transform := Some (Compose [Callable "RandomCrop"; ToTensor]) |}
              (Callable "RandomHorizontalFlip") false) as (_ & H & _).
  apply (H [Callable "RandomCrop"; ToTensor] eq_refl).
  apply list_elem_of_In. simpl. auto.
Defined.

(** *** Further behaviour of add_vision_dataset_transform *)

Lemma add_to_compose_at_ToTensor pre post new is_tensor_transform :
  ToTensor ∉ pre ->
  transform (fst (add_vision_dataset_transform
                    {| transform := Some (Compose (pre ++ (ToTensor :: post))) |}
                    new is_tensor_transform))
  = Some (Compose (if is_tensor_transform
                   then pre ++ ToTensor :: new :: post
                   else pre ++ new :: ToTensor :: post)).
Proof.
  intros Hpre. unfold add_vision_dataset_transform. simpl.
  rewrite find_ToTensor_first by done. simpl.
  destruct is_tensor_transform.
  - replace (length pre + 1) with (length (pre ++ [ToTensor]))
      by (rewrite length_app; simpl; lia).
    replace (pre ++ ToTensor :: post) with ((pre ++ [ToTensor]) ++ post)
      by (by rewrite <- app_assoc).
    rewrite list_insert_at_app. by rewrite <- app_assoc.
  - by rewrite list_insert_at_app.
Qed.

(** On a dataset that has a transform, the call leaves a [Compose] that
    holds the transforms that were there, all of them and in their order,
    with the new transform put in at one place. *)
Theorem add_vision_dataset_transform_keeps_pipeline
    (dataset : VisionDataset) (new : Transform) (is_tensor_transform : bool) :
  transform dataset <> None ->
  exists before behind,
    pipeline (transform dataset) = before ++ behind /\
    transform (fst (add_vision_dataset_transform dataset new is_tensor_transform))
    = Some (Compose (before ++ new :: behind)).
Proof.
  intros Hsome. unfold add_vision_dataset_transform.
  destruct (transform dataset) as [[|ts|name]|]; [| | |done]; simpl.
  - destruct is_tensor_transform; simpl.
    + by exists [ToTensor], [].
    + by exists [], [ToTensor].
  - eexists _, _. split; [|reflexivity]. by rewrite take_drop.
  - by exists [Callable name], [].
Qed.

(** A resize in front of a tensor conversion stays in front of it. *)
Lemma add_vision_dataset_transform_keeps_pipeline_witness :
  exists before behind,
    [Callable "Resize"; ToTensor] = before ++ behind /\
    transform (fst (add_vision_dataset_transform
                      {| transform := Some (Compose [Callable "Resize"; ToTensor]) |}
                      (Callable "Normalize") true))
    = Some (Compose (before ++ Callable "Normalize" :: behind)).
Proof.
  apply (add_vision_dataset_transform_keeps_pipeline
           {| transform := Some (Compose [Callable "Resize"; ToTensor]) |}
           (Callable "Normalize") true).
  discriminate.
Defined.

(** Two transforms added one after the other to a composed pipeline with
    a [ToTensor]: transforms for images run in the order in which they
    were added, both before the conversion; transforms for tensors run in
    the reverse order, the one added last directly after the
    conversion. *)
Theorem add_vision_dataset_transform_twice
    (pre post : list Transform) (a b : Transform) :
  ToTensor ∉ pre ->
  let dataset := {| transform := Some (Compose (pre ++ (ToTensor :: post))) |} in
  (a <> ToTensor ->
   transform (fst (add_vision_dataset_transform
                     (fst (add_vision_dataset_transform dataset a false)) b false))
   = Some (Compose (pre ++ a :: b :: ToTensor :: post))) /\
  transform (fst (add_vision_dataset_transform
                    (fst (add_vision_dataset_transform dataset a true)) b true))
  = Some (Compose (pre ++ ToTensor :: b :: a :: post)).
Proof.
  intros Hpre dataset. subst dataset. split.
  - intros Ha.
    pose proof (add_to_compose_at_ToTensor pre post a false Hpre) as H1.
    destruct (fst (add_vision_dataset_transform _ a false)) as [tr1].
    cbn [transform] in H1. subst tr1.
    replace (pre ++ a :: ToTensor :: post)
      with ((pre ++ [a]) ++ (ToTensor :: post)) by (by rewrite <- app_assoc).
    rewrite add_to_compose_at_ToTensor.
    + by rewrite <- app_assoc.
    + rewrite not_elem_of_app. split; [done|].
      rewrite list_elem_of_singleton. congruence.
  - pose proof (add_to_compose_at_ToTensor pre post a true Hpre) as H1.
    destruct (fst (add_vision_dataset_transform _ a true)) as [tr1].
    cbn [transform] in H1. subst tr1.
    by rewrite add_to_compose_at_ToTensor.
Qed.

(** Two normalisations added behind the conversion of a crop pipeline. *)
Lemma add_vision_dataset_transform_twice_witness :
  transform (fst (add_vision_dataset_transform
                    (fst (add_vision_dataset_transform
                            {| transform := Some (Compose ([Callable "RandomCrop"]
                                                           ++ (ToTensor :: []))) |}
                            (Callable "Normalize") true))
                    (Callable "Erase") true))
  = Some (Compose ([Callable "RandomCrop"]
                   ++ ToTensor :: Callable "Erase" :: Callable "Normalize" :: [])).
Proof.
  apply (add_vision_dataset_transform_twice [Callable "RandomCrop"] []
           (Callable "Normalize") (Callable "Erase")).
  rewrite list_elem_of_singleton. discriminate.
Defined.

End TransformsFacts.

(** ** Properties of pil_image_collate *)

Module CollateFacts.
Import Collate.

(** *** Facts about the array operations *)

Lemma length_flat_map_uniform {A B : Type} (f : A -> list B) (l : list A) k :
  (forall x, length (f x) = k) -> length (flat_map f l) = length l * k.
Proof.
  intros Hf. induction l as [|x l IH]; simpl; [done|].
  rewrite length_app, Hf, IH. lia.
Qed.

Lemma map_nth_seq (l : list Z) :
  map (fun p => nth (p * 1 + 0) l 0%Z) (seq 0 (length l)) = l.
Proof.
  apply list_eq. intros i. rewrite list_lookup_fmap.
  destruct (decide (i < length l)) as [Hi|Hi].
  - rewrite lookup_seq_lt by done. simpl.
    replace (i * 1 + 0) with i by lia.
    rewrite nth_lookup.
    destruct (lookup_lt_is_Some_2 l i Hi) as [x ->]. done.
  - rewrite lookup_seq_ge by lia. simpl.
    symmetry. apply lookup_ge_None_2. lia.
Qed.

Lemma image_array_data_length cast img :
  length (data (image_array cast img)) = height img * (width img * bands img).
Proof.
  unfold image_array, image_values; simpl. rewrite length_map.
  rewrite (length_flat_map_uniform _ _ (width img * bands img)).
  - by rewrite length_seq.
  - intros y. rewrite (length_flat_map_uniform _ _ (bands img)).
    + by rewrite length_seq.
    + intros x. by rewrite length_map, length_seq.
Qed.

Lemma chunks_concat {A : Type} n sz (l : list A) :
  length l = n * sz -> concat (chunks n sz l) = l.
Proof.
  revert l. induction n as [|n IH]; intros l Hl; simpl.
  - destruct l; [done|simpl in Hl; lia].
  - rewrite IH.
    + apply take_drop.
    + rewrite length_drop. lia.
Qed.

Lemma chunks_lengths {A : Type} n sz (l : list A) :
  length l = n * sz -> Forall (fun c => length c = sz) (chunks n sz l).
Proof.
  revert l. induction n as [|n IH]; intros l Hl; simpl; constructor.
  - rewrite length_take. lia.
  - apply IH. rewrite length_drop. lia.
Qed.

Lemma broadcast_same dims : forall d,
  length d = list_prod dims -> broadcast dims dims d = Some d.
Proof.
  induction dims as [|n dims IH]; intros d Hd; simpl; [done|].
  rewrite Nat.eqb_refl. simpl in Hd.
  assert (mapM (broadcast dims dims) (chunks n (list_prod dims) d)
          = Some (chunks n (list_prod dims) d)) as ->.
  { apply mapM_Some. apply Forall2_same_length_lookup. split; [done|].
    intros i x y Hx Hy. assert (x = y) as -> by congruence.
    apply IH.
    pose proof (chunks_lengths n (list_prod dims) d Hd) as Hall.
    rewrite Forall_lookup in Hall. by eapply Hall. }
  simpl. f_equal. by apply chunks_concat.
Qed.

Lemma broadcast_to_same x dims :
  shape x = dims -> length (data x) = list_prod dims ->
  broadcast_to x dims = Some (data x).
Proof.
  intros Hs Hd. unfold broadcast_to. rewrite Hs, Nat.leb_refl, Nat.sub_diag.
  simpl. by apply broadcast_same.
Qed.

Lemma zip_with_zeros_uint8 (xs : list Z) :
  zip_with (fun a b => to_uint8 (a + b)%Z)
           (replicate (length (map to_uint8 xs)) 0%Z) (map to_uint8 xs)
  = map to_uint8 xs.
Proof.
  induction xs as [|x xs IH]; simpl; [done|].
  rewrite IH. f_equal. unfold to_uint8. apply Z.mod_mod. lia.
Qed.

Lemma np_resize_three (D : list Z) h w :
  length D = h * w ->
  np_resize {| shape := [1; h; w]; data := D |} [3; h; w]
  = {| shape := [3; h; w]; data := D ++ D ++ D |}.
Proof.
  intros HD. unfold np_resize, zeros. cbn [data shape]. rewrite HD.
  assert (list_prod [3; h; w] = 3 * (h * w)) as -> by (simpl; lia).
  destruct (Nat.eqb_spec (h * w) 0) as [H0|H0]; cbn [orb].
  - rewrite H0. simpl. destruct D; [done|]. simpl in HD. lia.
  - assert ((3 * (h * w) =? 0) = false) as -> by (apply Nat.eqb_neq; lia).
    assert ((- (- Z.of_nat (3 * (h * w)) / Z.of_nat (h * w)))%Z = 3%Z) as ->.
    { replace (- Z.of_nat (3 * (h * w)))%Z with (-3 * Z.of_nat (h * w))%Z by lia.
      rewrite Z.div_mul by lia. done. }
    f_equal. change (Z.to_nat 3) with 3. cbn [replicate concat].
    rewrite app_nil_r.
    apply take_ge. rewrite !length_app. lia.
Qed.

Lemma image_channels_first_single h w img :
  bands img = 1 -> height img = h -> width img = w ->
  image_channels_first h w img
  = Ok {| shape := [3; h; w]; data := planes img |}.
Proof.
  intros Hb Hh Hw. unfold image_channels_first.
  pose proof (image_array_data_length to_uint8 img) as Hlen.
  rewrite Hb, Hh, Hw in Hlen.
  unfold ndim, rollaxis_2, expand_dims_last. unfold image_array at 1 2 3 4.
  simpl. rewrite Hb, Hh, Hw. simpl. rewrite app_nil_r.
  replace (h * w) with (length (data (image_array to_uint8 img))) at 1 by lia.
  rewrite map_nth_seq.
  rewrite np_resize_three by lia. done.
Qed.

Lemma planes_uint8 img :
  planes img
  = map to_uint8 (image_values img ++ image_values img ++ image_values img).
Proof. unfold planes, image_array; simpl. by rewrite !map_app. Qed.

Lemma planes_length h w img :
  bands img = 1 -> height img = h -> width img = w ->
  length (planes img) = list_prod [3; h; w].
Proof.
  intros Hb Hh Hw. unfold planes. rewrite !length_app.
  rewrite image_array_data_length, Hb, Hh, Hw. simpl. lia.
Qed.

(** Adding the planes of an image into a slot that still holds zeros. *)
Lemma iadd_slot_planes (it : ndarray) B h w i img (pre rest : list Z) :
  bands img = 1 -> height img = h -> width img = w ->
  shape it = [B; 3; h; w] ->
  length pre = i * list_prod [3; h; w] ->
  data it = pre ++ replicate (list_prod [3; h; w]) 0%Z ++ rest ->
  iadd_slot to_uint8 it i {| shape := [3; h; w]; data := planes img |}
  = Some {| shape := [B; 3; h; w]; data := pre ++ planes img ++ rest |}.
Proof.
  intros Hb Hh Hw Hs Hpre Hd.
  pose proof (planes_length h w img Hb Hh Hw) as Hlen.
  unfold iadd_slot. rewrite Hs. cbn [tail].
  rewrite broadcast_to_same by done. cbn [mbind option_bind data].
  do 2 f_equal. rewrite Hd.
  set (sz := list_prod [3; h; w]) in *.
  rewrite take_app_length' by done.
  rewrite drop_app_length' by done.
  rewrite take_app_length' by (by rewrite length_replicate).
  replace (S i * sz) with (length pre + sz) by lia.
  rewrite <- drop_drop, drop_app_length.
  rewrite drop_app_length' by (by rewrite length_replicate).
  f_equal. f_equal.
  rewrite <- Hlen, planes_uint8. apply zip_with_zeros_uint8.
Qed.

Lemma iadd_slot_shape wrap out i x out' :
  iadd_slot wrap out i x = Some out' -> shape out' = shape out.
Proof.
  unfold iadd_slot. destruct (broadcast_to x (tail (shape out))); simpl; [|done].
  by intros [= <-].
Qed.

Lemma single_channel_true h w s :
  single_channel h w s = true ->
  bands (fst s) = 1 /\ height (fst s) = h /\ width (fst s) = w.
Proof.
  unfold single_channel. rewrite !andb_true_iff, !Nat.eqb_eq. tauto.
Qed.

(** The loop on single-channel images of one size: it fills the image
    tensor slot by slot, and stops only where a target does not fit. *)
Lemma collate_loop_single B h w slot : forall samples i it tt pre,
  forallb (single_channel h w) samples = true ->
  shape it = [B; 3; h; w] ->
  data it = pre ++ replicate (length samples * list_prod [3; h; w]) 0%Z ->
  length pre = i * list_prod [3; h; w] ->
  tail (shape tt) = slot ->
  if forallb (fun s => bool_decide
                (is_Some (broadcast_to (target_array (snd s)) slot))) samples
  then exists it' tt',
         collate_loop h w i samples it tt = Ok (it', tt') /\
         shape it' = [B; 3; h; w] /\
         data it' = pre ++ concat (map (fun s => planes (fst s)) samples)
  else collate_loop h w i samples it tt = Raise RuntimeError.
Proof.
  induction samples as [|[img target] samples IH];
    intros i it tt pre Hall Hs Hd Hpre Htt.
  - simpl. exists it, tt. simpl in Hd. by rewrite Hd.
  - cbn [forallb] in Hall. apply andb_true_iff in Hall as [Himg Hall].
    apply single_channel_true in Himg as (Hb & Hh & Hw). simpl in Hb, Hh, Hw.
    cbn [collate_loop forallb snd].
    rewrite (image_channels_first_single h w img Hb Hh Hw).
    cbn [mbind result_bind shape]. rewrite Hs. cbn [tail].
    rewrite (bool_decide_eq_true_2 ([3; h; w] = [3; h; w])) by done.
    cbn [assert mbind result_bind].
    rewrite (iadd_slot_planes it B h w i img pre
               (replicate (length samples * list_prod [3; h; w]) 0%Z))
      by (try done; rewrite Hd; cbn [length];
          rewrite <- replicate_add; f_equal; lia).
    cbn [or_raise].
    destruct (iadd_slot to_int64 tt i (target_array target)) as [tt1|] eqn:Hadd.
    + assert (is_Some (broadcast_to (target_array target) slot)) as Hfit.
      { unfold iadd_slot in Hadd. rewrite Htt in Hadd.
        destruct (broadcast_to (target_array target) slot); [eauto|done]. }
      rewrite (bool_decide_eq_true_2 _ Hfit). cbn [andb or_raise].
      specialize (IH (S i)
                     {| shape := [B; 3; h; w];
                        data := pre ++ planes img ++
                                replicate (length samples * list_prod [3; h; w]) 0%Z |}
                     tt1 (pre ++ planes img) Hall eq_refl).
      cbn [data] in IH. rewrite <- app_assoc in IH. specialize (IH eq_refl).
      rewrite length_app, (planes_length h w img Hb Hh Hw) in IH.
      assert (tail (shape tt1) = slot) as Htt1.
      { apply iadd_slot_shape in Hadd. by rewrite Hadd. }
      specialize (IH ltac:(lia) Htt1).
      destruct (forallb _ samples).
      * destruct IH as (it' & tt' & Hrun & Hs' & Hd').
        exists it', tt'. split; [done|]. split; [done|].
        rewrite Hd'. cbn [map concat fst]. by rewrite <- app_assoc.
      * done.
    + assert (broadcast_to (target_array target) slot = None) as Hfit.
      { unfold iadd_slot in Hadd. rewrite Htt in Hadd.
        by destruct (broadcast_to (target_array target) slot). }
      rewrite bool_decide_eq_false_2 by (rewrite Hfit; by intros [? ?]).
      done.
Qed.

Lemma concat_planes_length h w (samples : list (Image * Target)) :
  forallb (single_channel h w) samples = true ->
  length (concat (map (fun s => planes (fst s)) samples))
  = length samples * list_prod [3; h; w].
Proof.
  induction samples as [|s samples IH]; intros Hall; [done|].
  cbn [forallb] in Hall. apply andb_true_iff in Hall as [Hs Hall].
  apply single_channel_true in Hs as (Hb & Hh & Hw).
  cbn [map concat length]. rewrite length_app, IH by done.
  rewrite (planes_length h w _ Hb Hh Hw). lia.
Qed.

(** Reading a plane back from the filled tensor. *)
Lemma channel_of_planes B h w (samples : list (Image * Target)) t i s c :
  forallb (single_channel h w) samples = true ->
  shape t = [B; 3; h; w] ->
  data t = concat (map (fun s => planes (fst s)) samples) ->
  samples !! i = Some s -> c < 3 ->
  channel t i c = data (image_array to_uint8 (fst s)).
Proof.
  intros Hall Hs Hd Hi Hc. unfold channel. rewrite Hs, Hd.
  rewrite <- (take_drop_middle samples i s Hi) in Hall |- *.
  rewrite forallb_app in Hall. apply andb_true_iff in Hall as [Hpre Hrest].
  cbn [forallb] in Hrest. apply andb_true_iff in Hrest as [Hsc _].
  apply single_channel_true in Hsc as (Hb & Hh & Hw).
  rewrite map_app, concat_app. cbn [map concat].
  pose proof (concat_planes_length h w _ Hpre) as Hlen.
  rewrite length_take_le in Hlen by (apply lookup_lt_Some in Hi; lia).
  replace ((i * 3 + c) * (h * w))
    with (length (concat (map (fun s => planes (fst s)) (take i samples)))
          + c * (h * w)) by (rewrite Hlen; simpl; lia).
  rewrite <- drop_drop, drop_app_length.
  unfold planes at 1.
  pose proof (image_array_data_length to_uint8 (fst s)) as HD.
  rewrite Hb, Hh, Hw in HD.
  set (D := data (image_array to_uint8 (fst s))) in *.
  assert (length D = h * w) as HD' by lia.
  clearbody D. rewrite <- !app_assoc.
  destruct c as [|[|[|c]]]; [| | |lia].
  - change (0 * (h * w)) with 0. rewrite drop_0.
    by rewrite <- HD', take_app_length.
  - replace (1 * (h * w)) with (length D) by lia.
    rewrite drop_app_length. by rewrite <- HD', take_app_length.
  - replace (2 * (h * w)) with (length D + length D) by lia.
    rewrite <- drop_drop, !drop_app_length.
    by rewrite <- HD', take_app_length.
Qed.

(** *** Single-channel images of any size *)

Lemma np_resize_shape a new_shape : shape (np_resize a new_shape) = new_shape.
Proof. unfold np_resize. by destruct (_ || _). Qed.

Lemma broadcast_same_total dims : forall d, is_Some (broadcast dims dims d).
Proof.
  induction dims as [|n dims IH]; intros d; simpl; [by eexists|].
  rewrite Nat.eqb_refl.
  assert (is_Some (mapM (broadcast dims dims) (chunks n (list_prod dims) d)))
    as [r ->]; [|by eexists].
  apply mapM_is_Some. apply Forall_forall. intros c _. apply IH.
Qed.

Lemma image_channels_first_one_band h w img :
  bands img = 1 ->
  exists a, image_channels_first h w img = Ok a /\ shape a = [3; h; w].
Proof.
  intros Hb. unfold image_channels_first, ndim, rollaxis_2, expand_dims_last.
  unfold image_array. cbn [shape data]. rewrite Hb. cbn.
  eexists. split; [reflexivity|]. apply np_resize_shape.
Qed.

(** Whatever their sizes, single-channel images pass both assertions of
    the loop: the loop ends normally or with the runtime error of a target
    that does not fit. *)
Lemma collate_loop_one_band B h w : forall samples i it tt,
  forallb (fun s => bands (fst s) =? 1) samples = true ->
  shape it = [B; 3; h; w] ->
  (exists it' tt', collate_loop h w i samples it tt = Ok (it', tt') /\
                   shape it' = [B; 3; h; w]) \/
  collate_loop h w i samples it tt = Raise RuntimeError.
Proof.
  induction samples as [|[img target] samples IH]; intros i it tt Hall Hs.
  - left. by exists it, tt.
  - cbn [forallb fst] in Hall. apply andb_true_iff in Hall as [Hb Hall].
    apply Nat.eqb_eq in Hb.
    destruct (image_channels_first_one_band h w img Hb) as (a & Ha & Hsa).
    cbn [collate_loop]. rewrite Ha. cbn [mbind result_bind].
    rewrite Hs, Hsa. cbn [tail].
    rewrite (bool_decide_eq_true_2 ([3; h; w] = [3; h; w])) by done.
    cbn [assert mbind result_bind].
    assert (exists it1, iadd_slot to_uint8 it i a = Some it1 /\
                        shape it1 = [B; 3; h; w]) as (it1 & -> & Hs1).
    { unfold iadd_slot, broadcast_to. rewrite Hs, Hsa. cbn [tail length].
      rewrite Nat.leb_refl, Nat.sub_diag. cbn [replicate app].
      destruct (broadcast_same_total [3; h; w] (data a)) as [xs ->].
      cbn [mbind option_bind]. by eexists. }
    cbn [or_raise].
    destruct (iadd_slot to_int64 tt i (target_array target)) as [tt1|];
      cbn [or_raise]; [|by right].
    by apply IH.
Qed.

Lemma pil_image_collate_one_band_never_asserts
    (batch : list (Image * Target)) (msg : string) :
  forallb (fun s => bands (fst s) =? 1) batch = true ->
  pil_image_collate batch <> Raise (AssertionError msg).
Proof.
  intros Hall Heq. unfold pil_image_collate in Heq.
  destruct batch as [|[img0 target0] rest]; [done|]. cbn [map fst] in Heq.
  match type of Heq with
  | collate_loop ?h ?w ?i ?b ?it ?tt = _ =>
    destruct (collate_loop_one_band _ h w b i it tt Hall eq_refl)
      as [(it' & tt' & Hrun & _)|Hrun]
  end; rewrite Hrun in Heq; done.
Qed.

(** C6 (code side). A single-channel image whose size differs from the
    first image's raises nothing: [np.resize] gives it the shape
    [(3, h, w)] of the first image, repeating its pixels, before the shape
    is compared. The same sizes in three-channel images do raise the
    'shape mismatch' assertion. *)
Theorem pil_image_collate_resizes_single_channel :
  pil_image_collate
    [(gray_image [[1; 2]%Z], class_index 0); (gray_image [[9]%Z], class_index 1)]
  = Ok ({| shape := [2; 3; 1; 2];
           data := [1; 2; 1; 2; 1; 2; 9; 9; 9; 9; 9; 9]%Z |},
        {| shape := [2]; data := [0; 1]%Z |})
  /\
  pil_image_collate
    [(rgb_image [[1; 2]%Z], class_index 0); (rgb_image [[9]%Z], class_index 1)]
  = Raise (AssertionError "shape mismatch").
Proof. split; vm_compute; reflexivity. Qed.

(** *** Every kind of image *)

Lemma image_channels_first_three h w img :
  bands img = 3 ->
  image_channels_first h w img
  = Ok {| shape := [3; height img; width img]; data := rolled img |}.
Proof.
  intros Hb. unfold image_channels_first, ndim, rollaxis_2, rolled.
  unfold image_array at 1 2 3 4. cbn [shape]. rewrite Hb. done.
Qed.

Lemma image_channels_first_other h w img :
  bands img <> 1 -> bands img <> 3 ->
  image_channels_first h w img = Raise (AssertionError "unexpected shape").
Proof.
  intros H1 H3. unfold image_channels_first, ndim, rollaxis_2.
  unfold image_array at 1 2 3 4. cbn [shape].
  apply Nat.eqb_neq in H1 as H1'. rewrite H1'. cbn.
  apply Nat.eqb_neq in H3 as H3'. rewrite H3', H1'. done.
Qed.

Lemma image_channels_first_ok_shape h w img :
  image_ok h w img = true ->
  exists a, image_channels_first h w img = Ok a /\ shape a = [3; h; w].
Proof.
  unfold image_ok. rewrite orb_true_iff, !andb_true_iff, !Nat.eqb_eq.
  intros [Hb|[[Hb Hh] Hw]].
  - by apply image_channels_first_one_band.
  - rewrite image_channels_first_three by done. eexists. split; [done|].
    simpl. by rewrite Hh, Hw.
Qed.

Lemma image_channels_first_not_ok_raises h w img :
  image_ok h w img = false ->
  (image_channels_first h w img = Raise (AssertionError "unexpected shape") /\
   bands img <> 3) \/
  (exists a, image_channels_first h w img = Ok a /\ shape a <> [3; h; w] /\
             bands img = 3).
Proof.
  unfold image_ok. rewrite orb_false_iff, !andb_false_iff, !Nat.eqb_neq.
  intros [H1 Hrest].
  destruct (decide (bands img = 3)) as [H3|H3].
  - right. rewrite image_channels_first_three by done. eexists.
    split; [done|]. split; [|done]. simpl. intros [= Hh Hw].
    destruct Hrest as [[?|?]|?]; done.
  - left. split; [|done]. by apply image_channels_first_other.
Qed.

Lemma iadd_slot_same_shape wrap out i a B slot :
  shape out = B :: slot -> shape a = slot ->
  exists out', iadd_slot wrap out i a = Some out' /\ shape out' = shape out.
Proof.
  intros Hout Ha. unfold iadd_slot, broadcast_to. rewrite Hout, Ha.
  cbn [tail]. rewrite Nat.leb_refl, Nat.sub_diag. cbn [replicate app].
  destruct (broadcast_same_total slot (data a)) as [xs ->].
  cbn [mbind option_bind]. by eexists.
Qed.

(** One round of the loop on an accepted image: what is left is the
    accumulation of the target and the rest of the loop. *)
Lemma collate_loop_image_ok B h w i img target samples it tt :
  image_ok h w img = true ->
  shape it = [B; 3; h; w] ->
  exists it1,
    shape it1 = [B; 3; h; w] /\
    collate_loop h w i ((img, target) :: samples) it tt
    = match iadd_slot to_int64 tt i (target_array target) with
      | Some tt1 => collate_loop h w (S i) samples it1 tt1
      | None => Raise RuntimeError
      end.
Proof.
  intros Hok Hs.
  destruct (image_channels_first_ok_shape h w img Hok) as (a & Ha & Hsa).
  destruct (iadd_slot_same_shape to_uint8 it i a B [3; h; w] Hs Hsa)
    as (it1 & Hadd & Hs1).
  exists it1. split; [by rewrite Hs1|].
  cbn [collate_loop]. rewrite Ha. cbn [mbind result_bind].
  rewrite Hs, Hsa. cbn [tail].
  rewrite (bool_decide_eq_true_2 ([3; h; w] = [3; h; w])) by done.
  cbn [assert mbind result_bind]. rewrite Hadd. cbn [or_raise].
  by destruct (iadd_slot to_int64 tt i (target_array target)).
Qed.

(** A round of the loop that goes through, taken apart. *)
Lemma collate_loop_cons_ok h w i img target samples it tt r :
  collate_loop h w i ((img, target) :: samples) it tt = Ok r ->
  exists a it1 tt1,
    image_channels_first h w img = Ok a /\
    tail (shape it) = shape a /\
    iadd_slot to_uint8 it i a = Some it1 /\
    iadd_slot to_int64 tt i (target_array target) = Some tt1 /\
    collate_loop h w (S i) samples it1 tt1 = Ok r.
Proof.
  cbn [collate_loop].
  destruct (image_channels_first h w img) as [a|e] eqn:Ha; [|done].
  cbn [mbind result_bind].
  destruct (bool_decide (tail (shape it) = shape a)) eqn:Hshape; [|done].
  apply bool_decide_eq_true in Hshape. cbn [assert mbind result_bind].
  destruct (iadd_slot to_uint8 it i a) as [it1|] eqn:Hit; [|done].
  cbn [or_raise mbind result_bind].
  destruct (iadd_slot to_int64 tt i (target_array target)) as [tt1|] eqn:Htt;
    [|done].
  cbn [or_raise mbind result_bind]. intros Hrest. by exists a, it1, tt1.
Qed.

Lemma pil_image_collate_nonempty batch :
  batch <> [] ->
  pil_image_collate batch
  = collate_loop (batch_height batch) (batch_width batch) 0 batch
      (zeros [length batch; 3; batch_height batch; batch_width batch])
      (zeros (target_dims (map snd batch))).
Proof.
  destruct batch as [|[img0 target0] rest]; [done|]. intros _.
  unfold pil_image_collate. cbn [map fst batch_height batch_width length].
  by rewrite length_map.
Qed.

Lemma image_channels_first_errors h w img e :
  image_channels_first h w img = Raise e ->
  e = AssertionError "unexpected shape".
Proof.
  destruct (decide (bands img = 1)) as [H1|H1].
  { destruct (image_channels_first_one_band h w img H1) as (a & -> & _). done. }
  destruct (decide (bands img = 3)) as [H3|H3].
  { by rewrite image_channels_first_three. }
  rewrite image_channels_first_other by done. congruence.
Qed.

Lemma collate_loop_errors h w : forall samples i it tt e,
  collate_loop h w i samples it tt = Raise e ->
  e = RuntimeError \/ exists msg, e = AssertionError msg.
Proof.
  induction samples as [|[img target] samples IH]; intros i it tt e; [done|].
  cbn [collate_loop].
  destruct (image_channels_first h w img) as [a|e'] eqn:Ha.
  - cbn [mbind result_bind].
    destruct (bool_decide (tail (shape it) = shape a)).
    + cbn [assert mbind result_bind].
      destruct (iadd_slot to_uint8 it i a) as [it1|].
      * cbn [or_raise mbind result_bind].
        destruct (iadd_slot to_int64 tt i (target_array target)) as [tt1|].
        -- cbn [or_raise mbind result_bind]. apply IH.
        -- cbn [or_raise mbind result_bind]. intros [= <-]. by left.
      * cbn [or_raise mbind result_bind]. intros [= <-]. by left.
    + cbn [assert mbind result_bind]. intros [= <-]. right. by eexists.
  - cbn [mbind result_bind]. intros [= <-].
    apply image_channels_first_errors in Ha as ->. right. by eexists.
Qed.

(** The exceptions of [pil_image_collate]: the index error of [imgs[0]]
    is raised for the empty batch and for no other, and the axis of
    [np.rollaxis] is never out of range. *)
Theorem pil_image_collate_index_error (batch : list (Image * Target)) :
  (pil_image_collate batch = Raise IndexError <-> batch = []) /\
  pil_image_collate batch <> Raise AxisError.
Proof.
  destruct batch as [|s rest]; [done|].
  rewrite pil_image_collate_nonempty by done. split.
  - split; [|done]. intros He.
    apply collate_loop_errors in He as [?|[? ?]]; done.
  - intros He. apply collate_loop_errors in He as [?|[? ?]]; done.
Qed.

(** The rounds of the loop on accepted samples go through and keep the
    shapes of both tensors. *)
Lemma collate_loop_good_prefix B h w slot rest : forall good i it tt,
  forallb (sample_ok h w slot) good = true ->
  shape it = [B; 3; h; w] -> tail (shape tt) = slot ->
  exists it1 tt1,
    shape it1 = [B; 3; h; w] /\ shape tt1 = shape tt /\
    collate_loop h w i (good ++ rest) it tt
    = collate_loop h w (i + length good) rest it1 tt1.
Proof.
  induction good as [|[img target] good IH]; intros i it tt Hall Hs Htt.
  - exists it, tt. rewrite Nat.add_0_r. done.
  - cbn [forallb] in Hall. apply andb_true_iff in Hall as [Hsample Hall].
    unfold sample_ok in Hsample. apply andb_true_iff in Hsample as [Hok Hfit].
    cbn [fst snd] in Hok, Hfit.
    destruct (collate_loop_image_ok B h w i img target (good ++ rest) it tt Hok Hs)
      as (it1 & Hs1 & Hstep).
    cbn [app]. rewrite Hstep.
    unfold target_fits in Hfit. apply bool_decide_eq_true in Hfit.
    destruct (iadd_slot to_int64 tt i (target_array target)) as [tt1|] eqn:Hadd.
    + pose proof (iadd_slot_shape _ _ _ _ _ Hadd) as Hs2.
      destruct (IH (S i) it1 tt1 Hall Hs1) as (it2 & tt2 & H1 & H2 & Hrun).
      { by rewrite Hs2. }
      exists it2, tt2. split; [done|]. split; [congruence|].
      rewrite Hrun. cbn [length]. f_equal. lia.
    + unfold iadd_slot in Hadd. rewrite Htt in Hadd.
      destruct Hfit as [xs Hxs]. by rewrite Hxs in Hadd.
Qed.

(** A batch in which every image has one band, or three bands and the
    size of the first image, and in which every target fits the target
    tensor, is collated without an exception; the image tensor has the
    shape [(batch, 3, h, w)] and the target tensor the shape fixed by the
    first target. *)
Theorem pil_image_collate_accepts (batch : list (Image * Target)) :
  batch <> [] ->
  forallb (fun s => image_ok (batch_height batch) (batch_width batch) (fst s))
          batch = true ->
  targets_fit batch = true ->
  exists image_tensor target_tensor,
    pil_image_collate batch = Ok (image_tensor, target_tensor) /\
    shape image_tensor
    = [length batch; 3; batch_height batch; batch_width batch] /\
    shape target_tensor = target_dims (map snd batch).
Proof.
  intros Hne Himgs Hfit. rewrite pil_image_collate_nonempty by done.
  set (h := batch_height batch) in *. set (w := batch_width batch) in *.
  assert (forallb (sample_ok h w (tail (target_dims (map snd batch)))) batch
          = true) as Hall.
  { unfold targets_fit in Hfit. rewrite forallb_forall in Himgs, Hfit |- *.
    intros s Hs. unfold sample_ok, target_fits.
    by rewrite (Himgs s Hs), (Hfit s Hs). }
  destruct (collate_loop_good_prefix (length batch) h w _ [] batch 0
              (zeros [length batch; 3; h; w])
              (zeros (target_dims (map snd batch))) Hall eq_refl eq_refl)
    as (it1 & tt1 & Hs1 & Hs2 & Hrun).
  rewrite app_nil_r in Hrun. rewrite Hrun. by exists it1, tt1.
Qed.

(** A grey and a colour image of one size with class indices. *)
Lemma pil_image_collate_accepts_witness :
  exists image_tensor target_tensor,
    pil_image_collate
      [(gray_image [[1; 2]%Z], class_index 0); (rgb_image [[7; 8]%Z], class_index 1)]
    = Ok (image_tensor, target_tensor) /\
    shape image_tensor = [2; 3; 1; 2] /\ shape target_tensor = [2].
Proof.
  apply (pil_image_collate_accepts
           [(gray_image [[1; 2]%Z], class_index 0);
            (rgb_image [[7; 8]%Z], class_index 1)]);
    [discriminate | reflexivity | reflexivity].
Defined.

(** The first image the loop does not accept ends the call with an
    assertion error, provided the samples before it are accepted: 'shape
    mismatch' for three bands and another size than the first image,
    'unexpected shape' for a number of bands other than one and three. *)
Theorem pil_image_collate_rejects
    (good rest : list (Image * Target)) (img : Image) (target : Target) :
  let batch := good ++ (img, target) :: rest in
  let h := batch_height batch in
  let w := batch_width batch in
  forallb (sample_ok h w (tail (target_dims (map snd batch)))) good = true ->
  image_ok h w img = false ->
  pil_image_collate batch
  = Raise (AssertionError (if bands img =? 3 then "shape mismatch"
                           else "unexpected shape")).
Proof.
  intros batch h w Hgood Hbad.
  rewrite pil_image_collate_nonempty by (subst batch; by destruct good).
  fold h w.
  destruct (collate_loop_good_prefix (length batch) h w _
              ((img, target) :: rest) good 0
              (zeros [length batch; 3; h; w])
              (zeros (target_dims (map snd batch))) Hgood eq_refl eq_refl)
    as (it1 & tt1 & Hs1 & _ & Hrun).
  fold batch in Hrun. rewrite Hrun. cbn [collate_loop].
  destruct (image_channels_first_not_ok_raises h w img Hbad)
    as [[Hraise H3]|(a & Ha & Hsa & H3)].
  - rewrite Hraise. apply Nat.eqb_neq in H3. by rewrite H3.
  - rewrite Ha, H3. cbn [mbind result_bind Nat.eqb].
    rewrite Hs1. cbn [tail].
    rewrite bool_decide_eq_false_2 by congruence. done.
Qed.

(** A colour image of another size behind a first colour image. *)
Lemma pil_image_collate_rejects_witness :
  pil_image_collate
    ([(rgb_image [[1; 2]%Z], class_index 0)]
     ++ (rgb_image [[9]%Z], class_index 1) :: [])
  = Raise (AssertionError "shape mismatch").
Proof.
  apply (pil_image_collate_rejects [(rgb_image [[1; 2]%Z], class_index 0)] []
           (rgb_image [[9]%Z]) (class_index 1)); reflexivity.
Defined.

(** The first target that cannot be added into its slot of the target
    tensor ends the call with torch's runtime error, provided the samples
    before it are accepted and its own image is. *)
Theorem pil_image_collate_target_misfit
    (good rest : list (Image * Target)) (img : Image) (target : Target) :
  let batch := good ++ (img, target) :: rest in
  let h := batch_height batch in
  let w := batch_width batch in
  let slot := tail (target_dims (map snd batch)) in
  forallb (sample_ok h w slot) good = true ->
  image_ok h w img = true ->
  target_fits slot target = false ->
  pil_image_collate batch = Raise RuntimeError.
Proof.
  intros batch h w slot Hgood Hok Hmisfit.
  rewrite pil_image_collate_nonempty by (subst batch; by destruct good).
  fold h w.
  destruct (collate_loop_good_prefix (length batch) h w slot
              ((img, target) :: rest) good 0
              (zeros [length batch; 3; h; w])
              (zeros (target_dims (map snd batch))) Hgood eq_refl eq_refl)
    as (it1 & tt1 & Hs1 & Hs2 & Hrun).
  fold batch in Hrun. rewrite Hrun.
  destruct (collate_loop_image_ok (length batch) h w (0 + length good) img target
              rest it1 tt1 Hok Hs1) as (it2 & _ & ->).
  unfold target_fits in Hmisfit. apply bool_decide_eq_false in Hmisfit.
  unfold iadd_slot. rewrite Hs2. cbn [zeros shape]. fold slot.
  destruct (broadcast_to (target_array target) slot) as [xs|]; [|done].
  exfalso. apply Hmisfit. by eexists.
Qed.

(** A vector of two labels behind a class index. *)
Lemma pil_image_collate_target_misfit_witness :
  pil_image_collate
    ([(gray_image [[1; 2]%Z], class_index 0)]
     ++ (gray_image [[7; 8]%Z],
         TargetArray {| shape := [2]; data := [1; 2]%Z |}) :: [])
  = Raise RuntimeError.
Proof.
  apply (pil_image_collate_target_misfit
           [(gray_image [[1; 2]%Z], class_index 0)] []
           (gray_image [[7; 8]%Z])
           (TargetArray {| shape := [2]; data := [1; 2]%Z |})); reflexivity.
Defined.

(** *** The image tensor of any call that returns *)

Lemma to_uint8_is_uint8 v : is_uint8 (to_uint8 v).
Proof. unfold is_uint8, to_uint8. apply Z.mod_pos_bound. lia. Qed.

Lemma to_uint8_fixed v : is_uint8 v -> to_uint8 v = v.
Proof. unfold is_uint8, to_uint8. intros Hv. by apply Z.mod_small. Qed.

Lemma image_array_is_uint8 img : Forall is_uint8 (data (image_array to_uint8 img)).
Proof.
  unfold image_array. cbn [data]. apply Forall_forall. intros v Hv.
  apply list_elem_of_fmap in Hv as (raw & -> & _). apply to_uint8_is_uint8.
Qed.

Lemma nth_is_uint8 (l : list Z) k : Forall is_uint8 l -> is_uint8 (nth k l 0%Z).
Proof.
  intros Hl. rewrite nth_lookup. destruct (l !! k) as [v|] eqn:Hk; simpl.
  - rewrite Forall_lookup in Hl. by eapply Hl.
  - unfold is_uint8. lia.
Qed.

Lemma rolled_length img : length (rolled img) = 3 * (height img * width img).
Proof.
  unfold rolled. rewrite (length_flat_map_uniform _ _ (height img * width img)).
  - by rewrite length_seq.
  - intros k. by rewrite length_map, length_seq.
Qed.

Lemma rolled_is_uint8 img : Forall is_uint8 (rolled img).
Proof.
  unfold rolled. apply Forall_forall. intros v Hv.
  apply list_elem_of_In, in_flat_map in Hv as (k & _ & Hv).
  apply in_map_iff in Hv as (p & <- & _).
  apply nth_is_uint8, image_array_is_uint8.
Qed.

Lemma length_concat_replicate {A : Type} n (l : list A) :
  length (concat (replicate n l)) = n * length l.
Proof.
  induction n as [|n IH]; simpl; [done|]. by rewrite length_app, IH.
Qed.

Lemma np_resize_length a new_shape :
  length (data (np_resize a new_shape)) = list_prod new_shape.
Proof.
  unfold np_resize.
  destruct (Nat.eqb_spec (length (data a)) 0) as [H0|H0]; cbn [orb].
  { simpl. by rewrite length_replicate. }
  destruct (Nat.eqb_spec (list_prod new_shape) 0) as [HN|HN]; cbn [orb].
  { simpl. by rewrite length_replicate. }
  cbn [data]. rewrite length_take, length_concat_replicate.
  set (N := list_prod new_shape) in *. set (L := length (data a)) in *.
  assert (Z.of_nat L * (- Z.of_nat N / Z.of_nat L) <= - Z.of_nat N)%Z as Hq
    by (apply Z.mul_div_le; lia).
  assert (N <= Z.to_nat (- (- Z.of_nat N / Z.of_nat L)) * L); [|lia].
  apply Nat2Z.inj_le. rewrite Nat2Z.inj_mul, Z2Nat.id; [lia|].
  assert (- Z.of_nat N / Z.of_nat L <= 0)%Z; [|lia].
  apply Z.div_le_upper_bound; lia.
Qed.

Lemma np_resize_is_uint8 a new_shape :
  Forall is_uint8 (data a) -> Forall is_uint8 (data (np_resize a new_shape)).
Proof.
  intros Ha. unfold np_resize. destruct (_ || _).
  - simpl. apply Forall_replicate. unfold is_uint8. lia.
  - cbn [data]. apply Forall_take. apply Forall_concat.
    by apply Forall_replicate.
Qed.

Lemma image_channels_first_one_band_eq h w img :
  bands img = 1 ->
  image_channels_first h w img
  = Ok (np_resize {| shape := [1; height img; width img];
                     data := data (image_array to_uint8 img) |} [3; h; w]).
Proof.
  intros Hb. unfold image_channels_first.
  pose proof (image_array_data_length to_uint8 img) as Hlen. rewrite Hb in Hlen.
  unfold ndim, rollaxis_2, expand_dims_last. unfold image_array at 1 2 3 4.
  simpl. rewrite Hb. simpl. rewrite app_nil_r.
  replace (height img * width img)
    with (length (data (image_array to_uint8 img))) at 1 by lia.
  by rewrite map_nth_seq.
Qed.

(** The array of an image, once it is channels first, has as many
    elements as its shape says, all of them bytes. *)
Lemma image_channels_first_wf h w img a :
  image_channels_first h w img = Ok a ->
  length (data a) = list_prod (shape a) /\ Forall is_uint8 (data a).
Proof.
  destruct (decide (bands img = 1)) as [H1|H1].
  { rewrite image_channels_first_one_band_eq by done. intros [= <-]. split.
    - by rewrite np_resize_length, np_resize_shape.
    - apply np_resize_is_uint8. apply image_array_is_uint8. }
  destruct (decide (bands img = 3)) as [H3|H3].
  { rewrite image_channels_first_three by done. intros [= <-]. split.
    - cbn [data shape]. rewrite rolled_length. simpl. lia.
    - apply rolled_is_uint8. }
  by rewrite image_channels_first_other.
Qed.

Lemma zip_with_uint8 (l k : list Z) :
  Forall is_uint8 (zip_with (fun a b => to_uint8 (a + b)%Z) l k).
Proof.
  revert k. induction l as [|x l IH]; intros [|y k]; simpl; try constructor.
  - apply to_uint8_is_uint8.
  - apply IH.
Qed.

Lemma iadd_slot_is_uint8 out i a out' :
  iadd_slot to_uint8 out i a = Some out' ->
  Forall is_uint8 (data out) -> Forall is_uint8 (data out').
Proof.
  unfold iadd_slot. destruct (broadcast_to a (tail (shape out))) as [xs|];
    [|done].
  cbn [mbind option_bind]. intros [= <-] Hout. cbn [data].
  rewrite !Forall_app. repeat split.
  - by apply Forall_take.
  - apply zip_with_uint8.
  - by apply Forall_drop.
Qed.

Lemma iadd_slot_length wrap out i a out' B slot :
  iadd_slot wrap out i a = Some out' ->
  shape out = B :: slot -> shape a = slot ->
  length (data a) = list_prod slot -> i < B ->
  length (data out) = B * list_prod slot ->
  length (data out') = B * list_prod slot.
Proof.
  intros Hadd Hout Ha Hlen Hi Hd. unfold iadd_slot in Hadd.
  rewrite Hout in Hadd. cbn [tail] in Hadd.
  rewrite broadcast_to_same in Hadd by done.
  cbn [mbind option_bind] in Hadd. injection Hadd as <-. cbn [data].
  rewrite !length_app, length_zip_with, !length_take, !length_drop.
  rewrite Hd, Hlen. nia.
Qed.

Lemma collate_loop_image_tensor_wf B h w : forall samples i it tt it' tt',
  collate_loop h w i samples it tt = Ok (it', tt') ->
  shape it = [B; 3; h; w] ->
  i + length samples <= B ->
  length (data it) = B * list_prod [3; h; w] ->
  Forall is_uint8 (data it) ->
  shape it' = [B; 3; h; w] /\
  length (data it') = B * list_prod [3; h; w] /\
  Forall is_uint8 (data it').
Proof.
  induction samples as [|[img target] samples IH];
    intros i it tt it' tt' Hrun Hs Hi Hlen Hbytes.
  - simpl in Hrun. injection Hrun as <- <-. done.
  - apply collate_loop_cons_ok in Hrun
      as (a & it1 & tt1 & Ha & Hsa & Hit & _ & Hrest).
    rewrite Hs in Hsa. cbn [tail] in Hsa. symmetry in Hsa.
    destruct (image_channels_first_wf h w img a Ha) as [Hla Hba].
    rewrite Hsa in Hla. cbn [length] in Hi.
    apply (IH (S i) it1 tt1 it' tt' Hrest).
    + apply iadd_slot_shape in Hit. by rewrite Hit.
    + lia.
    + by apply (iadd_slot_length to_uint8 it i a it1 B [3; h; w]); [..|lia|].
    + by apply (iadd_slot_is_uint8 it i a).
Qed.

(** Whenever [pil_image_collate] returns, the image tensor has the shape
    [(batch, 3, h, w)] of the first image, holds exactly as many elements
    as that shape says, and each of them is a byte. *)
Theorem pil_image_collate_image_tensor_wf
    (batch : list (Image * Target)) (image_tensor target_tensor : Tensor) :
  pil_image_collate batch = Ok (image_tensor, target_tensor) ->
  shape image_tensor = [length batch; 3; batch_height batch; batch_width batch] /\
  length (data image_tensor) = list_prod (shape image_tensor) /\
  Forall is_uint8 (data image_tensor).
Proof.
  intros Hrun. destruct batch as [|s rest] eqn:Hbatch; [done|].
  rewrite <- Hbatch in *.
  rewrite pil_image_collate_nonempty in Hrun by (by rewrite Hbatch).
  apply (collate_loop_image_tensor_wf (length batch)) in Hrun
    as (Hs & Hlen & Hbytes).
  - rewrite Hs. split; [done|]. split; [|done]. rewrite Hlen. done.
  - done.
  - simpl. lia.
  - simpl. by rewrite length_replicate.
  - simpl. apply Forall_replicate. unfold is_uint8. lia.
Qed.

(** A grey image with a pixel value beyond a byte. *)
Lemma pil_image_collate_image_tensor_wf_witness :
  exists image_tensor target_tensor,
    pil_image_collate [(gray_image [[300; 2]%Z], class_index 0)]
    = Ok (image_tensor, target_tensor) /\
    Forall is_uint8 (data image_tensor).
Proof.
  eexists _, _. split; [reflexivity|].
  eapply (pil_image_collate_image_tensor_wf
            [(gray_image [[300; 2]%Z], class_index 0)]).
  reflexivity.
Defined.

(** *** Three-channel images *)

Lemma nth_map_seq {A : Type} (g : nat -> A) s n i d :
  i < n -> nth i (map g (seq s n)) d = g (s + i).
Proof.
  intros Hi. rewrite nth_lookup, list_lookup_fmap, lookup_seq_lt by done. done.
Qed.

Lemma nth_flat_map_seq {A : Type} (f : nat -> list A) k n d :
  (forall a, length (f a) = k) ->
  forall s i j, i < n -> j < k ->
  nth (i * k + j) (flat_map f (seq s n)) d = nth j (f (s + i)) d.
Proof.
  intros Hf. induction n as [|n IH]; intros s i j Hi Hj; [lia|].
  cbn [seq flat_map]. destruct i as [|i].
  - rewrite app_nth1 by (rewrite Hf; lia). by rewrite Nat.add_0_r.
  - rewrite app_nth2 by (rewrite Hf; lia). rewrite Hf.
    replace (S i * k + j - k) with (i * k + j) by lia.
    rewrite IH by lia. f_equal. f_equal. lia.
Qed.

Lemma nth_concat_uniform {A : Type} (blocks : list (list A)) k d :
  Forall (fun b => length b = k) blocks ->
  forall i j, i < length blocks -> j < k ->
  nth (i * k + j) (concat blocks) d = nth j (nth i blocks []) d.
Proof.
  induction 1 as [|b blocks Hb _ IH]; intros i j Hi Hj; [simpl in Hi; lia|].
  cbn [concat]. destruct i as [|i].
  - by rewrite app_nth1 by lia.
  - rewrite app_nth2 by lia. rewrite Hb.
    replace (S i * k + j - k) with (i * k + j) by lia.
    cbn [length] in Hi. rewrite IH by lia. done.
Qed.

(** The value at row [y], column [x] and band [c] in the flat array of an
    image. *)
Lemma image_values_nth img y x c :
  y < height img -> x < width img -> c < bands img ->
  nth ((y * width img + x) * bands img + c) (image_values img) 0%Z
  = pixel img y x c.
Proof.
  intros Hy Hx Hc. unfold image_values.
  replace ((y * width img + x) * bands img + c)
    with (y * (width img * bands img) + (x * bands img + c)) by lia.
  rewrite (nth_flat_map_seq _ (width img * bands img)); [| |done|nia].
  - rewrite (nth_flat_map_seq _ (bands img)); [| |done|done].
    + by rewrite nth_map_seq.
    + intros a. by rewrite length_map, length_seq.
  - intros a. rewrite (length_flat_map_uniform _ _ (bands img)).
    + by rewrite length_seq.
    + intros b. by rewrite length_map, length_seq.
Qed.

Lemma rolled_nth img c y x :
  bands img = 3 -> c < 3 -> y < height img -> x < width img ->
  nth (c * (height img * width img) + (y * width img + x)) (rolled img) 0%Z
  = to_uint8 (pixel img y x c).
Proof.
  intros Hb Hc Hy Hx. unfold rolled.
  rewrite (nth_flat_map_seq _ (height img * width img)); [| |done|nia].
  - rewrite nth_map_seq by nia. cbn [Nat.add].
    unfold image_array. cbn [data].
    change 0%Z with (to_uint8 0) at 1. rewrite map_nth. f_equal.
    rewrite <- Hb at 1. apply image_values_nth; [done|done|lia].
  - intros a. by rewrite length_map, length_seq.
Qed.

Lemma zip_with_zeros_fixed (xs : list Z) :
  Forall is_uint8 xs ->
  zip_with (fun a b => to_uint8 (a + b)%Z) (replicate (length xs) 0%Z) xs = xs.
Proof.
  induction 1 as [|x xs Hx _ IH]; simpl; [done|].
  rewrite IH. f_equal. by apply to_uint8_fixed.
Qed.

(** Adding an array of bytes into a slot that still holds zeros. *)
Lemma iadd_slot_fill (it : ndarray) B slot i (a : ndarray) (pre rest : list Z) :
  shape it = B :: slot -> shape a = slot ->
  length (data a) = list_prod slot -> Forall is_uint8 (data a) ->
  length pre = i * list_prod slot ->
  data it = pre ++ replicate (list_prod slot) 0%Z ++ rest ->
  iadd_slot to_uint8 it i a
  = Some {| shape := B :: slot; data := pre ++ data a ++ rest |}.
Proof.
  intros Hs Ha Hlen Hbytes Hpre Hd. unfold iadd_slot. rewrite Hs. cbn [tail].
  rewrite broadcast_to_same by done. cbn [mbind option_bind data].
  do 2 f_equal. rewrite Hd. set (sz := list_prod slot) in *.
  rewrite take_app_length' by done.
  rewrite drop_app_length' by done.
  rewrite take_app_length' by (by rewrite length_replicate).
  replace (S i * sz) with (length pre + sz) by lia.
  rewrite <- drop_drop, drop_app_length.
  rewrite drop_app_length' by (by rewrite length_replicate).
  do 2 f_equal. rewrite <- Hlen. by apply zip_with_zeros_fixed.
Qed.

(** The loop on three-band images of one size: slot by slot the image
    tensor receives the channels-first array of the image. *)
Lemma collate_loop_three_bands B h w slot : forall samples i it tt pre,
  forallb (fun s => (bands (fst s) =? 3) && (height (fst s) =? h)
                    && (width (fst s) =? w) && target_fits slot (snd s))
          samples = true ->
  shape it = [B; 3; h; w] ->
  data it = pre ++ replicate (length samples * list_prod [3; h; w]) 0%Z ->
  length pre = i * list_prod [3; h; w] ->
  tail (shape tt) = slot ->
  exists it' tt',
    collate_loop h w i samples it tt = Ok (it', tt') /\
    shape it' = [B; 3; h; w] /\
    data it' = pre ++ concat (map (fun s => rolled (fst s)) samples).
Proof.
  induction samples as [|[img target] samples IH];
    intros i it tt pre Hall Hs Hd Hpre Htt.
  - exists it, tt. simpl in *. by rewrite Hd.
  - cbn [forallb fst snd] in Hall.
    rewrite !andb_true_iff, !Nat.eqb_eq in Hall.
    destruct Hall as [[[[Hb Hh] Hw] Hfit] Hall].
    cbn [collate_loop]. rewrite image_channels_first_three by done.
    rewrite Hh, Hw. cbn [mbind result_bind shape]. rewrite Hs. cbn [tail].
    rewrite (bool_decide_eq_true_2 ([3; h; w] = [3; h; w])) by done.
    cbn [assert mbind result_bind].
    assert (length (rolled img) = list_prod [3; h; w]) as Hlen.
    { rewrite rolled_length, Hh, Hw. simpl. lia. }
    assert (iadd_slot to_uint8 it i {| shape := [3; h; w]; data := rolled img |}
            = Some {| shape := [B; 3; h; w];
                      data := pre ++ rolled img ++
                              replicate (length samples * list_prod [3; h; w]) 0%Z |})
      as ->.
    { apply iadd_slot_fill; try done.
      - apply rolled_is_uint8.
      - rewrite Hd. cbn [length]. rewrite <- replicate_add. do 2 f_equal; lia. }
    cbn [or_raise mbind result_bind data].
    unfold target_fits in Hfit. apply bool_decide_eq_true in Hfit.
    destruct (iadd_slot to_int64 tt i (target_array target)) as [tt1|] eqn:Hadd.
    2:{ unfold iadd_slot in Hadd. rewrite Htt in Hadd.
        destruct Hfit as [xs Hxs]. by rewrite Hxs in Hadd. }
    cbn [or_raise mbind result_bind].
    destruct (IH (S i) {| shape := [B; 3; h; w];
                          data := pre ++ rolled img ++
                                  replicate (length samples * list_prod [3; h; w]) 0%Z |}
                 tt1 (pre ++ rolled img) Hall eq_refl)
      as (it' & tt' & Hrun & Hs' & Hd').
    + cbn [data]. by rewrite <- app_assoc.
    + rewrite length_app, Hlen. lia.
    + apply iadd_slot_shape in Hadd. by rewrite Hadd.
    + exists it', tt'. split; [done|]. split; [done|].
      rewrite Hd'. cbn [map concat fst]. by rewrite <- app_assoc.
Qed.

(** For a batch of three-band images of one size whose targets fit,
    [pil_image_collate] returns the images channels first:
    [image_tensor[i, c, y, x]] is band [c] of the pixel at row [y] and
    column [x] of image [i], as a byte. *)
Theorem pil_image_collate_three_channels
    (batch : list (Image * Target)) (h w : nat) :
  batch <> [] ->
  forallb (fun s => (bands (fst s) =? 3) && (height (fst s) =? h)
                    && (width (fst s) =? w)) batch = true ->
  targets_fit batch = true ->
  exists image_tensor target_tensor,
    pil_image_collate batch = Ok (image_tensor, target_tensor) /\
    shape image_tensor = [length batch; 3; h; w] /\
    forall i s c y x, batch !! i = Some s -> c < 3 -> y < h -> x < w ->
      tensor_at image_tensor i c y x = to_uint8 (pixel (fst s) y x c).
Proof.
  intros Hne Himgs Hfit.
  assert (batch_height batch = h /\ batch_width batch = w) as [Hbh Hbw].
  { destruct batch as [|[img0 t0] rest]; [done|]. cbn [forallb fst] in Himgs.
    rewrite !andb_true_iff, !Nat.eqb_eq in Himgs. simpl. tauto. }
  rewrite pil_image_collate_nonempty by done. rewrite Hbh, Hbw.
  assert (forallb (fun s => (bands (fst s) =? 3) && (height (fst s) =? h)
                    && (width (fst s) =? w)
                    && target_fits (tail (target_dims (map snd batch))) (snd s))
                  batch = true) as Hall.
  { unfold targets_fit in Hfit. rewrite forallb_forall in Himgs, Hfit |- *.
    intros s Hs. unfold target_fits. by rewrite (Himgs s Hs), (Hfit s Hs). }
  destruct (collate_loop_three_bands (length batch) h w _ batch 0
              (zeros [length batch; 3; h; w])
              (zeros (target_dims (map snd batch))) [] Hall eq_refl)
    as (it' & tt' & Hrun & Hs' & Hd'); [simpl; f_equal; lia|done|done|].
  exists it', tt'. split; [done|]. split; [done|].
  intros i s c y x Hi Hc Hy Hx. unfold tensor_at. rewrite Hs', Hd'.
  cbn [app].
  assert (Forall (fun b => length b = 3 * (h * w))
                 (map (fun s => rolled (fst s)) batch)) as Hblocks.
  { apply Forall_fmap, Forall_forall. intros s' Hs'' . simpl.
    rewrite forallb_forall in Himgs.
    specialize (Himgs s' (proj1 (list_elem_of_In _ _) Hs'')).
    rewrite !andb_true_iff, !Nat.eqb_eq in Himgs.
    destruct Himgs as [[_ Hh] Hw]. by rewrite rolled_length, Hh, Hw. }
  replace (((i * 3 + c) * h + y) * w + x)
    with (i * (3 * (h * w)) + (c * (h * w) + (y * w + x))) by lia.
  rewrite (nth_concat_uniform _ (3 * (h * w)));
    [|done|rewrite length_map; by eapply lookup_lt_Some|nia].
  rewrite (nth_lookup _ i), list_lookup_fmap, Hi. cbn [fmap option_fmap option_map default].
  rewrite forallb_forall in Himgs.
  specialize (Himgs s (proj1 (list_elem_of_In _ _)
                          (proj2 (list_elem_of_lookup _ _) (ex_intro _ i Hi)))).
  rewrite !andb_true_iff, !Nat.eqb_eq in Himgs.
  destruct Himgs as [[Hb Hh] Hw]. rewrite <- Hh, <- Hw in *.
  by apply rolled_nth.
Qed.

(** One colour pixel with the bands 10, 20 and 30. *)
Lemma pil_image_collate_three_channels_witness :
  exists image_tensor target_tensor,
    pil_image_collate
      [({| width := 1; height := 1; bands := 3;
           pixel := fun _ _ b => (10 * (Z.of_nat b + 1))%Z |}, class_index 0)]
    = Ok (image_tensor, target_tensor) /\
    tensor_at image_tensor 0 2 0 0 = 30%Z.
Proof.
  destruct (pil_image_collate_three_channels
              [({| width := 1; height := 1; bands := 3;
                   pixel := fun _ _ b => (10 * (Z.of_nat b + 1))%Z |},
                class_index 0)] 1 1 ltac:(discriminate) eq_refl eq_refl)
    as (it & tt & Hrun & _ & Hat).
  exists it, tt. split; [exact Hrun|].
  exact (Hat 0 _ 2 0 0 eq_refl ltac:(lia) ltac:(lia) ltac:(lia)).
Defined.

(** *** Class indices as targets *)

Lemma to_int64_idem k : to_int64 (0 + to_int64 k) = to_int64 k.
Proof.
  unfold to_int64. rewrite Z.add_0_l.
  replace ((k + 2 ^ 63) mod 2 ^ 64 - 2 ^ 63 + 2 ^ 63)%Z
    with ((k + 2 ^ 63) mod 2 ^ 64)%Z by lia.
  by rewrite Z.mod_mod by lia.
Qed.

Lemma iadd_slot_class_index (tt : ndarray) Bt i k (pre rest : list Z) :
  shape tt = [Bt] -> length pre = i -> data tt = pre ++ 0%Z :: rest ->
  iadd_slot to_int64 tt i (target_array (class_index k))
  = Some {| shape := [Bt]; data := pre ++ to_int64 k :: rest |}.
Proof.
  intros Hs Hpre Hd. unfold iadd_slot. rewrite Hs. cbn [tail].
  change (broadcast_to (target_array (class_index k)) [])
    with (Some [to_int64 k]).
  cbn [mbind option_bind list_prod fold_right]. do 2 f_equal.
  rewrite !Nat.mul_1_r, Hd.
  rewrite take_app_length', drop_app_length' by done.
  replace (S i) with (length pre + 1) by lia.
  rewrite <- drop_drop, drop_app_length. cbn [take drop zip_with app].
  by rewrite to_int64_idem.
Qed.

Lemma collate_loop_class_indices B h w Bt : forall samples ks i it tt pre,
  forallb (fun s => image_ok h w (fst s)) samples = true ->
  map snd samples = map class_index ks ->
  shape it = [B; 3; h; w] ->
  shape tt = [Bt] ->
  data tt = pre ++ replicate (length samples) 0%Z ->
  length pre = i ->
  exists it' tt',
    collate_loop h w i samples it tt = Ok (it', tt') /\
    shape tt' = [Bt] /\ data tt' = pre ++ map to_int64 ks.
Proof.
  induction samples as [|[img target] samples IH];
    intros [|k ks] i it tt pre Hall Hks Hs Hst Hd Hpre; try done.
  - exists it, tt. simpl in *. by rewrite Hd.
  - cbn [forallb fst] in Hall. apply andb_true_iff in Hall as [Hok Hall].
    cbn [map snd] in Hks. injection Hks as -> Hks.
    destruct (collate_loop_image_ok B h w i img (class_index k) samples it tt Hok Hs)
      as (it1 & Hs1 & ->).
    rewrite (iadd_slot_class_index tt Bt i k pre (replicate (length samples) 0%Z))
      by done.
    destruct (IH ks (S i) it1
                 {| shape := [Bt];
                    data := pre ++ to_int64 k :: replicate (length samples) 0%Z |}
                 (pre ++ [to_int64 k]) Hall Hks Hs1 eq_refl)
      as (it' & tt' & Hrun & Hs' & Hd').
    + cbn [data]. by rewrite <- app_assoc.
    + rewrite length_app. simpl. lia.
    + exists it', tt'. split; [done|]. split; [done|].
      rewrite Hd'. by rewrite <- app_assoc.
Qed.

(** With class indices as targets and images the loop accepts, the target
    tensor that [pil_image_collate] returns is the vector of the class
    indices, as 64-bit integers, in the order of the batch. *)
Theorem pil_image_collate_class_indices
    (batch : list (Image * Target)) (ks : list Z) :
  batch <> [] ->
  forallb (fun s => image_ok (batch_height batch) (batch_width batch) (fst s))
          batch = true ->
  map snd batch = map class_index ks ->
  exists image_tensor,
    pil_image_collate batch
    = Ok (image_tensor,
          {| shape := [length batch]; data := map to_int64 ks |}).
Proof.
  intros Hne Himgs Hks. rewrite pil_image_collate_nonempty by done.
  assert (target_dims (map snd batch) = [length batch]) as ->.
  { assert (length batch = length (map snd batch)) as Hlen
      by (by rewrite length_map).
    rewrite Hlen, Hks. destruct ks as [|k ks]; [by destruct batch|]. done. }
  destruct (collate_loop_class_indices (length batch) (batch_height batch)
              (batch_width batch) (length batch) batch ks 0
              (zeros [length batch; 3; batch_height batch; batch_width batch])
              (zeros [length batch]) [] Himgs Hks eq_refl eq_refl)
    as (it' & tt' & Hrun & Hs' & Hd').
  - simpl. by rewrite Nat.mul_1_r.
  - done.
  - exists it'. rewrite Hrun. destruct tt' as [s d]. simpl in *. by subst.
Qed.

(** Two grey images with the classes 3 and 5. *)
Lemma pil_image_collate_class_indices_witness :
  exists image_tensor,
    pil_image_collate
      [(gray_image [[1; 2]%Z], class_index 3); (gray_image [[7; 8]%Z], class_index 5)]
    = Ok (image_tensor, {| shape := [2]; data := [3; 5]%Z |}).
Proof.
  apply (pil_image_collate_class_indices
           [(gray_image [[1; 2]%Z], class_index 3);
            (gray_image [[7; 8]%Z], class_index 5)] [3; 5]%Z);
    [discriminate | reflexivity | reflexivity].
Defined.

(** *** Single-channel images, value by value *)

Lemma nth_take_drop (l : list Z) k n j d :
  j < n -> nth j (take n (drop k l)) d = nth (k + j) l d.
Proof.
  intros Hj. by rewrite !nth_lookup, lookup_take_lt, lookup_drop.
Qed.

Lemma channel_values (t : ndarray) B C h w i c y x :
  shape t = [B; C; h; w] -> y < h -> x < w ->
  nth (y * w + x) (channel t i c) 0%Z = tensor_at t i c y x.
Proof.
  intros Hs Hy Hx. unfold channel, tensor_at. rewrite Hs.
  rewrite nth_take_drop by nia. f_equal. lia.
Qed.

Lemma gray_values_nth img y x :
  bands img = 1 -> y < height img -> x < width img ->
  nth (y * width img + x) (data (image_array to_uint8 img)) 0%Z
  = to_uint8 (pixel img y x 0).
Proof.
  intros Hb Hy Hx. unfold image_array. cbn [data].
  change 0%Z with (to_uint8 0) at 1. rewrite map_nth. f_equal.
  replace (y * width img + x) with ((y * width img + x) * bands img + 0)
    by (rewrite Hb; lia).
  apply image_values_nth; [done|done|lia].
Qed.

(** C5 (as stated). Two single-channel images of one size, the second
    with a vector of two labels where the first has a class index: the
    images are accepted, and the call raises when the labels are
    accumulated. *)
Lemma pil_image_collate_single_channel_label_misfit :
  single_channel_batch 1 2
    [(gray_image [[1; 2]%Z], class_index 0);
     (gray_image [[7; 8]%Z], TargetArray {| shape := [2]; data := [1; 2]%Z |})]
  = true /\
  pil_image_collate
    [(gray_image [[1; 2]%Z], class_index 0);
     (gray_image [[7; 8]%Z], TargetArray {| shape := [2]; data := [1; 2]%Z |})]
  = Raise RuntimeError.
Proof. split; vm_compute; reflexivity. Qed.

(** C5 (amended). For a non-empty batch of single-channel images that
    are all [h] high and [w] wide and whose targets each fit the target
    tensor, [pil_image_collate] returns, and the image tensor has shape
    [(batch, 3, h, w)] with each of the three channels of a sample equal
    to the single channel of its image: [image_tensor[i, c, y, x]] is the
    pixel at row [y] and column [x] of image [i], as a byte, for each of
    the three [c]. The images never make the function raise: when a
    target does not fit, the exception is the runtime error of the
    accumulation of the targets. *)
Theorem pil_image_collate_single_channel
    (batch : list (Image * Target)) (h w : nat) :
  batch <> [] ->
  single_channel_batch h w batch = true ->
  (targets_fit batch = true ->
   exists image_tensor target_tensor,
     pil_image_collate batch = Ok (image_tensor, target_tensor) /\
     shape image_tensor = [length batch; 3; h; w] /\
     (forall i s c, batch !! i = Some s -> c < 3 ->
        channel image_tensor i c = data (image_array to_uint8 (fst s))) /\
     (forall i s c y x, batch !! i = Some s -> c < 3 -> y < h -> x < w ->
        tensor_at image_tensor i c y x = to_uint8 (pixel (fst s) y x 0))) /\
  (targets_fit batch = false -> pil_image_collate batch = Raise RuntimeError).
Proof.
  intros Hne Hall. unfold single_channel_batch in Hall.
  destruct batch as [|[img0 target0] rest]; [done|].
  assert (height img0 = h /\ width img0 = w) as [Hh Hw].
  { cbn [forallb] in Hall. apply andb_true_iff in Hall as [H0 _].
    apply single_channel_true in H0. tauto. }
  set (batch := (img0, target0) :: rest) in *.
  pose proof (collate_loop_single (length batch) h w
                (tail (target_dims (map snd batch))) batch 0
                (zeros [length batch; 3; h; w])
                (zeros (target_dims (map snd batch))) [] Hall eq_refl)
    as Hloop.
  cbn [data zeros app length] in Hloop.
  specialize (Hloop eq_refl eq_refl eq_refl).
  assert (pil_image_collate batch
          = collate_loop h w 0 batch (zeros [length batch; 3; h; w])
              (zeros (target_dims (map snd batch)))) as ->.
  { unfold pil_image_collate, batch. cbn [map fst]. rewrite Hh, Hw.
    cbn [length]. by rewrite length_map. }
  unfold targets_fit.
  destruct (forallb (fun s => bool_decide (is_Some _)) batch).
  - split; [|done]. intros _.
    destruct Hloop as (it' & tt' & Hrun & Hs & Hd).
    assert (forall i s c, batch !! i = Some s -> c < 3 ->
              channel it' i c = data (image_array to_uint8 (fst s))) as Hch.
    { intros i s c Hi Hc.
      by apply (channel_of_planes (length batch) h w batch it' i s c). }
    exists it', tt'. split; [done|]. split; [done|]. split; [done|].
    intros i s c y x Hi Hc Hy Hx.
    rewrite <- (channel_values it' (length batch) 3 h w i c y x Hs Hy Hx).
    rewrite (Hch i s c Hi Hc).
    assert (single_channel h w s = true) as Hsc.
    { rewrite forallb_forall in Hall. apply Hall.
      apply list_elem_of_In, list_elem_of_lookup. eauto. }
    apply single_channel_true in Hsc as (Hb & Hsh & Hsw).
    rewrite <- Hsh in Hy. rewrite <- Hsw in Hx |- *.
    by apply gray_values_nth.
  - split; [done|]. by intros _.
Qed.

(** Two grey images of one row and two columns with class indices: the
    third channel of the second sample holds its second pixel. *)
Lemma pil_image_collate_single_channel_witness :
  [(gray_image [[1; 2]%Z], class_index 0); (gray_image [[7; 8]%Z], class_index 1)] <> [] /\
  exists image_tensor target_tensor,
    pil_image_collate
      [(gray_image [[1; 2]%Z], class_index 0); (gray_image [[7; 8]%Z], class_index 1)]
    = Ok (image_tensor, target_tensor) /\
    shape image_tensor = [2; 3; 1; 2] /\
    tensor_at image_tensor 1 2 0 1 = 8%Z.
Proof.
  split; [discriminate|].
  destruct (pil_image_collate_single_channel
              [(gray_image [[1; 2]%Z], class_index 0);
               (gray_image [[7; 8]%Z], class_index 1)] 1 2
              ltac:(discriminate) eq_refl) as [H _].
  destruct (H eq_refl) as (it & tt & Hrun & Hs & _ & Hat).
  exists it, tt. split; [exact Hrun|]. split; [exact Hs|].
  exact (Hat 1 _ 2 0 1 eq_refl ltac:(lia) ltac:(lia) ltac:(lia)).
Defined.

End CollateFacts.

(** ** Properties of run-metadata reporting *)

Module MosaicLoggerFacts.
Import MosaicLogger.

(** The data and the expectation of
    [test_format_data_to_json_serializable]. *)
Example test_format_data_to_json_serializable :
  format_data_to_json_serializable
    (VDict [("key1", VStr "value1"); ("key2", VInt 42); ("key3", VFloat 314);
            ("key4", VBool true); ("key5", VTensor [3] [1; 2; 3]%Z);
            ("key6", VDict [("inner_key", VStr "inner_value")]);
            ("key7", VList [VInt 1; VInt 2; VInt 3])])
  = VDict [("key1", VStr "value1"); ("key2", VInt 42); ("key3", VFloat 314);
           ("key4", VBool true);
           ("key5", VStr "Tensor of shape torch.Size([3])");
           ("key6", VDict [("inner_key", VStr "inner_value")]);
           ("key7", VList [VInt 1; VInt 2; VInt 3])].
Proof. vm_compute. reflexivity. Qed.

(** The progress strings the three progress tests expect. *)
Example test_training_progress_strings :
  training_progress TOKEN 64
    {| token := 64; batch := 2; batch_in_epoch := 0; epoch := 1 |}
    = "[token=64/64]" /\
  training_progress BATCH 4
    {| token := 0; batch := 4; batch_in_epoch := 0; epoch := 4 |}
    = "[batch=4/4]" /\
  training_progress EPOCH 2 (timestamp_at 2 2 0) = "[epoch=2/2]" /\
  training_sub_progress TOKEN (timestamp_at 2 2 0) = None /\
  training_sub_progress BATCH (timestamp_at 2 2 0) = None.
Proof. repeat split; vm_compute; reflexivity. Qed.

Lemma glob_match_star key : glob_match "*" key = true.
Proof.
  induction key as [|c key IH]; [done|].
  simpl in *. by rewrite IH.
Qed.

Lemma ignored_wildcard ignore_keys key :
  "*" ∈ ignore_keys -> ignored ignore_keys key = true.
Proof.
  intros Hin. unfold ignored. apply existsb_exists.
  exists "*". split; [by apply list_elem_of_In|]. apply glob_match_star.
Qed.

Lemma format_output_serializable v :
  json_serializable (format_data_to_json_serializable v) = true.
Proof.
  induction v as [| | | | |items IH|items IH] using Value_nested_ind;
    simpl; try done.
  - induction IH as [|[k x] items Hx _ IHitems]; simpl; [done|].
    simpl in Hx. by rewrite Hx.
  - induction IH as [|x items Hx _ IHitems]; simpl; [done|].
    by rewrite Hx.
Qed.

(** C7. With ['*'] in the ignore-list the metric filter returns the empty
    mapping, whatever the metadata: the call the rank-zero reporter makes
    carries no key, and the registry holds no key for the run. *)
Theorem metric_filter_wildcard
    (ignore : list string) (metadata : list (string * Value)) (name : string) :
  "*" ∈ ignore ->
  metric_filter ignore metadata = [] /\
  log_metadata {| ignore_keys := ignore; run_name := name; global_rank := 0 |}
               metadata = [(name, [])] /\
  run_metadata
    (receive MockMAPI_init
       (log_metadata {| ignore_keys := ignore; run_name := name; global_rank := 0 |}
                     metadata)) !! name = Some ∅.
Proof.
  intros Hin.
  assert (metric_filter ignore metadata = []) as Hempty.
  { unfold metric_filter. induction metadata as [|[k v] metadata IH]; [done|].
    rewrite filter_cons_False; [done|]. simpl.
    rewrite ignored_wildcard by done. done. }
  split; [done|].
  unfold log_metadata. cbn [global_rank Nat.eqb ignore_keys run_name].
  rewrite Hempty. split; [done|].
  unfold receive, update_run_metadata, MockMAPI_init. simpl.
  rewrite lookup_empty. simpl. by rewrite !lookup_insert_eq.
Qed.

(** The ignore-list of [test_metric_full_filtering]. *)
Lemma metric_filter_wildcard_witness :
  metric_filter ["*"] [("loss", VInt 1); ("num_nodes", VInt 2)] = [].
Proof.
  apply (metric_filter_wildcard ["*"]
           [("loss", VInt 1); ("num_nodes", VInt 2)] "small_chungus").
  apply list_elem_of_In. simpl. auto.
Defined.

(** C8. The formatter is idempotent: formatting a formatted value (a
    metadata mapping in particular) changes nothing. *)
Theorem format_data_idempotent (v : Value) :
  format_data_to_json_serializable (format_data_to_json_serializable v)
  = format_data_to_json_serializable v.
Proof.
  induction v as [| | | | |items IH|items IH] using Value_nested_ind;
    simpl; try done.
  - f_equal. rewrite map_map.
    induction IH as [|[k x] items Hx _ IHitems]; simpl; [done|].
    simpl in Hx. by rewrite Hx, IHitems.
  - f_equal. rewrite map_map.
    induction IH as [|x items Hx _ IHitems]; simpl; [done|].
    by rewrite Hx, IHitems.
Qed.

(** C9. A reporter whose global rank is not zero makes no external call,
    whatever is logged and however often: the registry of that process
    never holds a run. *)
Theorem nonzero_rank_reports_nothing
    (logger : MosaicMLLogger) (events : list (list (string * Value))) :
  global_rank logger <> 0 ->
  log_events logger events = [] /\
  run_metadata (receive MockMAPI_init (log_events logger events)) = ∅.
Proof.
  intros Hrank.
  assert (log_events logger events = []) as Hcalls.
  { unfold log_events. induction events as [|metadata events IH]; [done|].
    simpl. rewrite IH. unfold log_metadata.
    apply Nat.eqb_neq in Hrank. by rewrite Hrank. }
  rewrite Hcalls. done.
Qed.

(** Rank one of a run of two processes, logging twice. *)
Lemma nonzero_rank_reports_nothing_witness :
  log_events {| ignore_keys := []; run_name := "small_chungus"; global_rank := 1 |}
             [[("loss", VInt 1)]; [("accuracy", VInt 2)]] = [].
Proof.
  apply (nonzero_rank_reports_nothing
           {| ignore_keys := []; run_name := "small_chungus"; global_rank := 1 |}
           [[("loss", VInt 1)]; [("accuracy", VInt 2)]]).
  simpl. discriminate.
Defined.

Lemma floordiv_bounds (a b : Z) :
  (1 <= b)%Z ->
  exists q, floordiv a b = Quotient_value q /\ (b * q <= a < b * (q + 1))%Z.
Proof.
  intros Hb. unfold floordiv.
  assert ((b =? 0)%Z = false) as -> by (apply Z.eqb_neq; lia).
  exists (a / b)%Z. split; [done|].
  pose proof (Z.mul_div_le a b ltac:(lia)).
  pose proof (Z.mul_succ_div_gt a b ltac:(lia)). lia.
Qed.

Lemma floordiv_unique (a b q : Z) :
  (1 <= b)%Z -> (b * q <= a < b * (q + 1))%Z ->
  floordiv a b = Quotient_value q.
Proof.
  intros Hb Hq. destruct (floordiv_bounds a b Hb) as (q' & -> & Hq').
  f_equal. nia.
Qed.

(** C2 (as stated). In a run of two batches per epoch, at the first batch
    of the second epoch (where the assertions of the test hold) the
    sub-progress is 2, which is the batch count of an epoch and not below
    it; and at the end of the first epoch it is 2 again, which is the raw
    batch count and not below it. *)
Lemma sub_progress_not_below_batch_counts :
  test_epoch_assertions (timestamp_at 2 1 1) = Some true /\
  (exists v, training_sub_progress EPOCH (timestamp_at 2 1 1)
             = Some (Quotient_value v) /\
             ~ (v < 2)%Z) /\
  (exists v, training_sub_progress EPOCH (timestamp_at 2 1 0)
             = Some (Quotient_value v) /\
             ~ (v < batch (timestamp_at 2 1 0))%Z).
Proof.
  split; [reflexivity|]. split.
  - exists 2%Z. split; [reflexivity|]. lia.
  - exists 2%Z. split; [reflexivity|]. simpl. lia.
Qed.

(** C2 (amended). For the epoch unit a sub-progress is reported, and with
    an epoch count of at least one it is the floor quotient of
    [batch - batch_in_epoch] by [epoch]: the one integer [q] with
    [epoch * q <= batch - batch_in_epoch < epoch * (q + 1)]. With an epoch
    count of zero the quotient has no value, in the formula as in the
    division of the test. At a timestamp with at least one finished epoch
    of a run that makes [n] batches per epoch, the sub-progress is [n]
    itself, the batch count of an epoch: it is strictly above the count of
    batches in the current epoch, and it is strictly below the raw batch
    count exactly when the current epoch has a batch or two epochs are
    finished, which is also when the assertions of the test hold. *)
Theorem sub_progress_epoch (t : Timestamp) :
  (epoch t = 0%Z ->
   training_sub_progress EPOCH t = Some ZeroDivisionError /\
   test_epoch_assertions t = None) /\
  ((1 <= epoch t)%Z ->
   exists q,
     training_sub_progress EPOCH t = Some (Quotient_value q) /\
     (epoch t * q <= batch t - batch_in_epoch t < epoch t * (q + 1))%Z) /\
  (forall n,
     (1 <= epoch t)%Z ->
     (0 <= batch_in_epoch t < n)%Z ->
     batch t = (epoch t * n + batch_in_epoch t)%Z ->
     training_sub_progress EPOCH t = Some (Quotient_value n) /\
     (batch_in_epoch t < n)%Z /\
     ((n < batch t)%Z <-> (1 <= batch_in_epoch t \/ 2 <= epoch t)%Z) /\
     (test_epoch_assertions t = Some true <->
      (1 <= batch_in_epoch t \/ 2 <= epoch t)%Z)).
Proof.
  split; [|split].
  - intros He. unfold test_epoch_assertions, batches_per_epoch.
    unfold training_sub_progress, floordiv. by rewrite He.
  - intros He. unfold training_sub_progress.
    destruct (floordiv_bounds (batch t - batch_in_epoch t) (epoch t) He)
      as (q & -> & Hq).
    by exists q.
  - intros n He Hk Hb.
    assert (floordiv (batch t - batch_in_epoch t) (epoch t) = Quotient_value n)
      as Hq by (apply floordiv_unique; [done|]; rewrite Hb; nia).
    assert ((n < batch t)%Z <-> (1 <= batch_in_epoch t \/ 2 <= epoch t)%Z)
      as Hlt by (rewrite Hb; split; [intros H; nia|intros [H|H]; nia]).
    unfold training_sub_progress. rewrite Hq.
    split; [done|]. split; [lia|]. split; [done|].
    unfold test_epoch_assertions, batches_per_epoch. rewrite Hq, <- Hlt.
    split.
    + intros [= Hand]. apply andb_true_iff in Hand as [_ Hnb].
      by apply Z.ltb_lt.
    + intros Hnb. f_equal. apply andb_true_iff.
      split; apply Z.ltb_lt; [lia|done].
Qed.

(** Five batches after two epochs (one of two batches, one of three):
    the quotient of 5 by 2 is rounded down to 2. *)
Lemma sub_progress_epoch_witness :
  training_sub_progress EPOCH
    {| token := 0; batch := 5; batch_in_epoch := 0; epoch := 2 |}
  = Some (Quotient_value 2).
Proof.
  destruct (sub_progress_epoch
              {| token := 0; batch := 5; batch_in_epoch := 0; epoch := 2 |})
    as (_ & Hfloor & _).
  destruct (Hfloor ltac:(simpl; lia)) as (q & Hq & Hbounds).
  simpl in Hbounds. assert (q = 2%Z) as -> by lia. exact Hq.
Defined.

(** *** The registry double *)

Lemma update_run_metadata_state api run new_metadata :
  run_metadata (fst (update_run_metadata api run new_metadata))
  = <[run := fold_left (fun m kv => <[fst kv := snd kv]> m) new_metadata
                       (default ∅ (run_metadata api !! run))]>
      (run_metadata api).
Proof.
  unfold update_run_metadata. cbn [fst run_metadata].
  destruct (run_metadata api !! run) as [old|] eqn:Hold.
  - by rewrite Hold.
  - rewrite lookup_insert_eq. cbn [default]. by rewrite insert_insert_eq.
Qed.

Lemma update_run_metadata_raises api run new_metadata :
  snd (update_run_metadata api run new_metadata) = None <->
  map_Forall (fun _ v => json_serializable v = true)
    (fold_left (fun m kv => <[fst kv := snd kv]> m) new_metadata
               (default ∅ (run_metadata api !! run))).
Proof.
  unfold update_run_metadata. cbn [snd].
  assert (default ∅ (match run_metadata api !! run with
                     | Some _ => run_metadata api
                     | None => <[run:=∅]> (run_metadata api)
                     end !! run)
          = default ∅ (run_metadata api !! run)) as ->.
  { destruct (run_metadata api !! run) as [old|] eqn:Hold.
    - by rewrite Hold.
    - by rewrite lookup_insert_eq. }
  case_bool_decide; split; done.
Qed.

(** The entries after the loop of insertions, for a mapping whose keys
    are distinct, as those of a Python dictionary are. *)
Lemma stored_lookup (new_metadata : list (string * Value)) :
  forall (old : gmap string Value) k v,
  NoDup (map fst new_metadata) ->
  fold_left (fun m kv => <[fst kv := snd kv]> m) new_metadata old !! k = Some v
  <-> (k, v) ∈ new_metadata \/ ((k ∉ map fst new_metadata) /\ old !! k = Some v).
Proof.
  induction new_metadata as [|[k0 v0] md IH]; intros old k v Hnd.
  - simpl. split.
    + intros H. right. split; [apply not_elem_of_nil|done].
    + intros [H|[_ H]]; [by apply elem_of_nil in H|done].
  - cbn [map fst] in Hnd. apply NoDup_cons in Hnd as [Hk0 Hnd].
    cbn [fold_left fst snd map]. rewrite (IH _ _ _ Hnd).
    rewrite elem_of_cons, not_elem_of_cons.
    destruct (decide (k = k0)) as [->|Hne].
    + rewrite lookup_insert_eq. split.
      * intros [Hin|[_ Heq]].
        -- exfalso. apply Hk0. apply list_elem_of_fmap. by exists (k0, v).
        -- left. left. congruence.
      * intros [[Heq|Hin]|[[Hf _] _]]; [| |done].
        -- right. split; [done|]. congruence.
        -- exfalso. apply Hk0. apply list_elem_of_fmap. by exists (k0, v).
    + rewrite lookup_insert_ne by done. split.
      * intros [Hin|[Hnot Hold]]; [left; by right|right; done].
      * intros [[Heq|Hin]|[[_ Hnot] Hold]]; [congruence|by left|by right].
Qed.

(** After [update_run_metadata], whether it raised or not: every entry of
    the new mapping is stored under the run, the other entries of the run
    are as before, and the other runs are untouched. *)
Theorem update_run_metadata_lookup
    (api : MockMAPI) (run : string) (new_metadata : list (string * Value)) :
  NoDup (map fst new_metadata) ->
  let after := run_metadata (fst (update_run_metadata api run new_metadata)) in
  exists entries,
    after !! run = Some entries /\
    (forall k v, (k, v) ∈ new_metadata -> entries !! k = Some v) /\
    (forall k, k ∉ map fst new_metadata ->
       entries !! k = default ∅ (run_metadata api !! run) !! k) /\
    (forall other, other <> run -> after !! other = run_metadata api !! other).
Proof.
  intros Hnd after. subst after. rewrite update_run_metadata_state.
  eexists. split; [apply lookup_insert_eq|]. repeat split.
  - intros k v Hin. apply stored_lookup; [done|]. by left.
  - intros k Hk. apply option_eq. intros v. rewrite stored_lookup by done.
    split; [|by right]. intros [Hin|[_ H]]; [|done].
    exfalso. apply Hk. apply list_elem_of_fmap. by exists (k, v).
  - intros other Hother. by rewrite lookup_insert_ne.
Qed.

(** A tensor logged under a fresh run is stored, although the
    serialisation check then raises. *)
Lemma update_run_metadata_lookup_witness :
  exists entries,
    run_metadata (fst (update_run_metadata MockMAPI_init "small_chungus"
                         [("loss", VTensor [1] [0%Z])])) !! "small_chungus"
    = Some entries /\
    entries !! "loss" = Some (VTensor [1] [0%Z]).
Proof.
  destruct (update_run_metadata_lookup MockMAPI_init "small_chungus"
              [("loss", VTensor [1] [0%Z])]) as (entries & Hrun & Hnew & _).
  - repeat constructor. apply not_elem_of_nil.
  - exists entries. split; [exact Hrun|]. apply Hnew.
    apply list_elem_of_singleton. reflexivity.
Defined.

(** [update_run_metadata] raises exactly when a value that [json.dumps]
    cannot write is in the new mapping, or is an earlier entry of the run
    that the new mapping does not overwrite. *)
Theorem update_run_metadata_raises_iff
    (api : MockMAPI) (run : string) (new_metadata : list (string * Value)) :
  NoDup (map fst new_metadata) ->
  snd (update_run_metadata api run new_metadata) = None <->
  Forall (fun kv => json_serializable (snd kv) = true) new_metadata /\
  (forall k v, default ∅ (run_metadata api !! run) !! k = Some v ->
               k ∉ map fst new_metadata -> json_serializable v = true).
Proof.
  intros Hnd. rewrite update_run_metadata_raises. unfold map_Forall.
  rewrite Forall_forall. split.
  - intros Hall. split.
    + intros [k v] Hin. apply (Hall k). apply stored_lookup; [done|]. by left.
    + intros k v Hold Hk. apply (Hall k). apply stored_lookup; [done|].
      by right.
  - intros [Hnew Hold] k v Hk. apply stored_lookup in Hk as [Hin|[Hk Hv]]; [|by eauto|done].
    by apply (Hnew (k, v)).
Qed.

(** Numbers under a fresh run are accepted. *)
Lemma update_run_metadata_raises_iff_witness :
  snd (update_run_metadata MockMAPI_init "small_chungus"
         [("loss", VInt 1); ("accuracy", VInt 2)]) = None.
Proof.
  apply (update_run_metadata_raises_iff MockMAPI_init "small_chungus"
           [("loss", VInt 1); ("accuracy", VInt 2)]).
  - apply NoDup_cons. split.
    + rewrite list_elem_of_singleton. discriminate.
    + apply NoDup_cons. split; [apply not_elem_of_nil|apply NoDup_nil_2].
  - split; [by repeat constructor|].
    intros k v Hk. cbn [MockMAPI_init run_metadata] in Hk.
    rewrite lookup_empty in Hk. cbn [default] in Hk.
    rewrite lookup_empty in Hk. discriminate.
Defined.

(** Two updates of a run leave the registry as one update with the two
    mappings in sequence. *)
Theorem update_run_metadata_twice
    (api : MockMAPI) (run : string) (first second : list (string * Value)) :
  fst (update_run_metadata (fst (update_run_metadata api run first)) run second)
  = fst (update_run_metadata api run (first ++ second)).
Proof.
  assert (forall a b : MockMAPI, run_metadata a = run_metadata b -> a = b)
    as Hext by (intros [a] [b]; simpl; congruence).
  apply Hext. rewrite !update_run_metadata_state.
  rewrite lookup_insert_eq. cbn [default].
  by rewrite insert_insert_eq, fold_left_app.
Qed.

End MosaicLoggerFacts.
